(** * microAO: the adaptive-optics algorithms (aoAlg.py) and device (aoDev.py)

    A shallow embedding of the index, shape, state and exception behaviour of
    [microAO.aoAlg.AdaptiveOpticsFunctions] and
    [microAO.aoDev.AdaptiveOpticsDevice].  float64 data are Rocq's primitive
    binary64 floats; Python ints are [Z]; a 1-D array is a list, a 2-D array a
    list of rows. *)

From Stdlib Require Import String DecimalString ZArith List Bool Lia.
From Stdlib Require Import Uint63 Floats.
Import ListNotations.
Open Scope Z_scope.
#[local] Set Warnings "-inexact-float".

(** ** Python values *)

(** The code runs under Python 2 and, in places, only there; the constructs
    it uses that differ between the dialects are [int / int], the comparison
    [range(n) > 2], and the attribute [with_traceback] of an exception. *)
Inductive dialect : Type := Python2 | Python3.

(** The exceptions the modelled code can raise.  [Exception msg] is a plain
    [raise Exception(msg)]; a bare [raise Exception] carries the empty
    message. *)
Inductive exception : Type :=
| ValueError
| TypeError
| AttributeError
| IndexError
| ZeroDivisionError
| AssertionError
| UnboundLocalError
| LinAlgError
| Exception (msg : string).

Inductive result (A : Type) : Type :=
| Ok (a : A)
| Raise (e : exception).
Arguments Ok {A} a.
Arguments Raise {A} e.

Definition rbind {A B} (r : result A) (k : A -> result B) : result B :=
  match r with
  | Ok a => k a
  | Raise e => Raise e
  end.

(** A method body: it runs on the object state, may raise, and every
    assignment made before a [raise] stays made. *)
Definition M (S A : Type) : Type := S -> result A * S.

Definition ret {S A} (a : A) : M S A := fun s => (Ok a, s).
Definition raise {S A} (e : exception) : M S A := fun s => (Raise e, s).
Definition bind {S A B} (m : M S A) (k : A -> M S B) : M S B :=
  fun s => match m s with
           | (Ok a, s') => k a s'
           | (Raise e, s') => (Raise e, s')
           end.
Definition get {S} : M S S := fun s => (Ok s, s).
Definition modify {S} (f : S -> S) : M S unit := fun s => (Ok tt, f s).
Definition lift {S A} (r : result A) : M S A := fun s => (r, s).

Declare Scope py_scope.
Delimit Scope py_scope with py.
Notation "x <- m ;; k" := (bind m (fun x => k))
  (at level 61, m at next level, right associativity) : py_scope.
Notation "m ;;; k" := (bind m (fun _ => k))
  (at level 61, right associativity) : py_scope.
Notation "x <~ r ;; k" := (rbind r (fun x => k))
  (at level 61, r at next level, right associativity) : py_scope.

(** [range(a, b)] and [np.arange(a, b)] on ints. *)
Definition arange (a b : Z) : list Z :=
  map (fun k => a + Z.of_nat k) (seq 0 (Z.to_nat (b - a))).

(** A sequence index [l[i]]: negative indices count from the end. *)
Definition py_index (n i : Z) : option Z :=
  if (0 <=? i) && (i <? n) then Some i
  else if (- n <=? i) && (i <? 0) then Some (n + i)
  else None.

(** One bound of a slice [a:b] of a sequence of [n] entries. *)
Definition slice_bound (n i : Z) : Z :=
  let i := if i <? 0 then i + n else i in
  if i <? 0 then 0 else if n <? i then n else i.

(** The number of entries of [l[a:b]] when [l] has [n] entries. *)
Definition slice_len (n a b : Z) : Z :=
  Z.max 0 (slice_bound n b - slice_bound n a).

Definition zlength {A} (l : list A) : Z := Z.of_nat (length l).

Definition py_slice {A} (l : list A) (a b : Z) : list A :=
  let n := zlength l in
  firstn (Z.to_nat (slice_len n a b)) (skipn (Z.to_nat (slice_bound n a)) l).

(** [a[i]] for [0 <= i]. *)
Definition zth {A} (l : list A) (i : Z) : option A :=
  if i <? 0 then None else nth_error l (Z.to_nat i).

(** [a[i][j]] for in-range non-negative [i], [j]. *)
Definition at2 {A} (a : list (list A)) (i j : Z) : option A :=
  match zth a i with
  | Some row => zth row j
  | None => None
  end.

(** [l[i] = x] for an index already normalised; out of range leaves [l]. *)
Fixpoint set_nth {A} (l : list A) (i : nat) (x : A) : list A :=
  match l, i with
  | [], _ => []
  | _ :: t, O => x :: t
  | h :: t, S i' => h :: set_nth t i' x
  end.

Fixpoint mapi_from {A B} (f : Z -> A -> B) (i : Z) (l : list A) : list B :=
  match l with
  | [] => []
  | x :: t => f i x :: mapi_from f (i + 1) t
  end.
Definition mapi {A B} (f : Z -> A -> B) (l : list A) : list B := mapi_from f 0 l.

Fixpoint map2 {A B C} (f : A -> B -> C) (l : list A) (m : list B) : list C :=
  match l, m with
  | x :: l', y :: m' => f x y :: map2 f l' m'
  | _, _ => []
  end.

(** ** numpy values *)

Definition vec : Type := list float.
Definition array2 : Type := list (list float).
Definition bmask : Type := list (list bool).
Definition complex : Type := (float * float)%type.
Definition carray : Type := list (list complex).

(** [np.shape] of a 2-D array held as its non-empty list of rows. *)
Definition shape2 {A} (a : list (list A)) : Z * Z :=
  (zlength a, match a with r :: _ => zlength r | [] => 0 end).

(** int64 to float64, for the non-negative values the code converts. *)
Definition float_of_Z (n : Z) : float := PrimFloat.of_uint63 (Uint63.of_Z n).

Definition np_zeros (n : Z) : vec := repeat 0%float (Z.to_nat n).
Definition np_zeros2 (n m : Z) : array2 := repeat (np_zeros m) (Z.to_nat n).

(** [np.pad(v, (before, after), 'constant')]: a negative width is refused. *)
Definition np_pad (v : vec) (before after : Z) : result vec :=
  if (before <? 0) || (after <? 0) then Raise ValueError
  else Ok (np_zeros before ++ v ++ np_zeros after).

(** [a * b] on 1-D arrays, with numpy's broadcasting of a length-1 operand. *)
Definition np_mul1 (a b : vec) : result vec :=
  if zlength a =? zlength b then Ok (map2 PrimFloat.mul a b)
  else match a, b with
       | [x], _ => Ok (map (PrimFloat.mul x) b)
       | _, [y] => Ok (map (fun x => PrimFloat.mul x y) a)
       | _, _ => Raise ValueError
       end.

(** [np.roll(l, k)] along one axis; [np.fft.fftshift] rolls every axis by
    [n // 2] and [np.fft.ifftshift] by [-(n // 2)]. *)
Definition roll {A} (k : Z) (l : list A) : list A :=
  let n := zlength l in
  if n =? 0 then l
  else let c := Z.to_nat (n - k mod n) in skipn c l ++ firstn c l.

Definition fftshift {A} (a : list (list A)) : list (list A) :=
  roll (zlength a / 2) (map (fun r => roll (zlength r / 2) r) a).
Definition ifftshift {A} (a : list (list A)) : list (list A) :=
  roll (- (zlength a / 2)) (map (fun r => roll (- (zlength r / 2)) r) a).

(** [a[y0:y1, x0:x1]]. *)
Definition slice2 {A} (a : list (list A)) (y0 y1 x0 x1 : Z) : list (list A) :=
  map (fun r => py_slice r x0 x1) (py_slice a y0 y1).

(** [a[y0:y1, x0:x1] = c] for a scalar [c]. *)
Definition fill2 {A} (a : list (list A)) (y0 y1 x0 x1 : Z) (c : A) : list (list A) :=
  let '(s0, s1) := shape2 a in
  mapi (fun i r =>
          if (slice_bound s0 y0 <=? i) && (i <? slice_bound s0 y1) then
            mapi (fun j v =>
                    if (slice_bound s1 x0 <=? j) && (j <? slice_bound s1 x1)
                    then c else v) r
          else r) a.

(** A dimension [d] of a value assigned into a dimension [t] of its target. *)
Definition broadcastable (d t : Z) : bool := (d =? t) || (d =? 1).

(** The value seen at position [k] of a target dimension. *)
Definition bcast_nth {A} (l : list A) (k : Z) : option A :=
  match l with
  | [x] => Some x
  | _ => zth l k
  end.

(** [a[y0:y1, x0:x1] = v] for a 2-D value [v] of shape [(d0, d1)]. *)
Definition paste2 {A} (a : list (list A)) (y0 y1 x0 x1 : Z)
    (v : list (list A)) (d0 d1 : Z) : result (list (list A)) :=
  let '(s0, s1) := shape2 a in
  let ylo := slice_bound s0 y0 in
  let xlo := slice_bound s1 x0 in
  if broadcastable d0 (slice_len s0 y0 y1) && broadcastable d1 (slice_len s1 x0 x1)
  then Ok (mapi (fun i r =>
             if (ylo <=? i) && (i <? slice_bound s0 y1) then
               mapi (fun j old =>
                       if (xlo <=? j) && (j <? slice_bound s1 x1) then
                         match bcast_nth v (i - ylo) with
                         | Some vr => match bcast_nth vr (j - xlo) with
                                      | Some x => x
                                      | None => old
                                      end
                         | None => old
                         end
                       else old) r
             else r) a)
  else Raise ValueError.

(** The value [v], of shape [(d0, d1)] with each dimension 1 or [n], as the
    [n] by [n] array it fills. *)
Definition broadcast_square {A} (n : nat) (v : list (list A)) : list (list A) :=
  let rows := match v with [r] => repeat r n | _ => v end in
  map (fun r => match r with [x] => repeat x n | _ => r end) rows.

(** [np.sqrt(y**2 (column) + x**2 (row))] at one pixel: the squares and their
    sum are int64, the root is float64. *)
Definition pixel_dist (y x : Z) : float :=
  PrimFloat.sqrt (float_of_Z (y * y + x * x)).

(** ** Library routines

    numpy, scipy, skimage and aotools computations whose floating-point
    results the model does not reproduce; each field names the call, or the
    run of library calls of [aoAlg.py], it stands for. *)
Class Numerics : Type := {
  (** one entry of [np.dot(matrix, vector)] *)
  np_inner : vec -> vec -> float;
  np_mean : vec -> float;
  np_log : float -> float;
  np_linalg_pinv : array2 -> float -> result array2;
  (** [np.polyfit(x, y, 2)]: [a_2, a_1, a_0] *)
  np_polyfit2 : vec -> vec -> result (float * float * float);
  (** [scipy.stats.linregress]: slope, intercept, r, p, stderr *)
  linregress : vec -> vec -> result (float * float * float * float * float);
  (** [make_fft_filter], lines 121-130: Tukey window, [fft2], [fftshift] *)
  windowed_spectrum : array2 -> result carray;
  (** [np.argmax] of a non-empty 2-D complex array: the flat index *)
  np_argmax : carray -> Z;
  (** [make_fft_filter], lines 158 and 161-167, on the filled 50 by 50
      window: [(int(CoM[0,0]), int(CoM[0,1]))], or nothing when the centre
      of mass is NaN *)
  window_centroid : carray -> option (Z * Z);
  (** entry [k] of [np.sin(np.linspace(0, np.pi, n))**2] *)
  sin2_linspace : Z -> Z -> float;
  (** the body of [phase_unwrap] on [self.fft_filter], [self.mask] and an
      image *)
  unwrap_kernel : option array2 -> option bmask -> array2 -> result array2;
  (** [create_control_matrix], lines 282-283 with the edge mask of line 270
      for side [x] *)
  count_discontinuities : Z -> array2 -> result Z;
  (** [get_zernike_modes]: resizing and binning (lines 228-235) *)
  zernike_resize : array2 -> Z -> result (array2 * Z);
  (** [get_zernike_modes]: lines 241-242 for mode [i] *)
  zernike_coefficient : array2 * Z -> Z -> float;
  (** [measure_fourier_metric], lines 360-366 *)
  power_spectrum : array2 -> result array2;
  (** [np.sqrt(np.mean((true_flat - phase)**2))] *)
  rms_of : array2 -> float
}.

(** ** AdaptiveOpticsFunctions (aoAlg.py): the object *)

Record AdaptiveOpticsFunctions : Type := mkAlg {
  mask : option bmask;
  fft_filter : option array2;
  controlMatrix : option array2;
  OTF_ring_mask : option array2
}.

(** [__init__] *)
Definition alg_init : AdaptiveOpticsFunctions :=
  mkAlg None None None None.

Definition set_alg_mask (m : option bmask) (s : AdaptiveOpticsFunctions) :=
  mkAlg m (fft_filter s) (controlMatrix s) (OTF_ring_mask s).
Definition set_alg_fft_filter (f : option array2) (s : AdaptiveOpticsFunctions) :=
  mkAlg (mask s) f (controlMatrix s) (OTF_ring_mask s).
Definition set_alg_controlMatrix (c : option array2) (s : AdaptiveOpticsFunctions) :=
  mkAlg (mask s) (fft_filter s) c (OTF_ring_mask s).

(** The [%i] of a message. *)
Definition string_of_Z (z : Z) : string := NilZero.string_of_int (Z.to_int z).

Definition stripes_message : string :=
  "Interferometer stripes are too fine. Please make them coarser".

Definition slope_message (actuator : Z) : string :=
  ("Not enough Zernike mode values to calculate slope for actuator "
   ++ string_of_Z actuator ++ ". Control matrix calculation will fail")%string.

Section Algorithms.
Context {lib : Numerics}.
Variable py : dialect.

(** ** make_mask *)

(** The grid [np.sqrt(col**2 + row**2) < radius] of [make_mask], for
    [0 <= radius]. *)
Definition disk (radius : Z) : bmask :=
  map (fun y => map (fun x => PrimFloat.ltb (pixel_dist y x) (float_of_Z radius))
                    (arange (- radius) radius))
      (arange (- radius) radius).

(** [make_mask(self, radius)].  For a negative radius the [arange] is
    empty, and [reshape((diameter, 1))] reads the negative [diameter] as the
    dimension to infer, 0 here: the mask is then the empty array, which
    [disk] gives as well. *)
Definition make_mask (radius : Z) : M AdaptiveOpticsFunctions bmask :=
  (modify (set_alg_mask (Some (disk radius))) ;;; ret (disk radius))%py.

(** ** make_fft_filter *)

(** What [Exception(...).with_traceback()] raises while the handler of line
    159 runs: the method wants one argument under Python 3 and does not
    exist under Python 2.  The [Exception] object itself is never raised. *)
Definition with_traceback_error : exception :=
  match py with
  | Python2 => AttributeError
  | Python3 => TypeError
  end.

(** Lines 135-136 and 143-144: [np.argmax] and the two coordinates
    [[tp % shape[1], int(tp / shape[1])]]. *)
Definition locate_max (fftarray : carray) : result (Z * Z) :=
  let '(s0, s1) := shape2 fftarray in
  if (s0 =? 0) || (s1 =? 0) then Raise ValueError
  else let tp := np_argmax fftarray in Ok (tp mod s1, tp / s1).

(** Whether [window[:,:] = ...] of line 158 goes through: each dimension of
    the slice around [maxpoint = (x, y)] must be 50 or 1. *)
Definition window_fits (fftarray : carray) (maxpoint : Z * Z) : bool :=
  let '(mx, my) := maxpoint in
  let '(s0, s1) := shape2 fftarray in
  broadcastable (slice_len s0 (my - 25) (my + 25)) 50
  && broadcastable (slice_len s1 (mx - 25) (mx + 25)) 50.

(** Lines 156-167: ten rounds of peak refinement on [maxpoint = (x, y)]. *)
Fixpoint refine_peak (fftarray : carray) (rounds : nat) (maxpoint : Z * Z)
  : result (Z * Z) :=
  match rounds with
  | O => Ok maxpoint
  | S rounds' =>
      let '(mx, my) := maxpoint in
      if window_fits fftarray maxpoint then
        let window :=
          broadcast_square 50
            (slice2 fftarray (my - 25) (my + 25) (mx - 25) (mx + 25)) in
        match window_centroid window with
        | None => Raise ValueError
        | Some (c0, c1) =>
            refine_peak fftarray rounds' (mx - 25 + c1, my - 25 + c0)
        end
      else Raise with_traceback_error
  end.

(** Lines 114-167: the spectrum the filter is laid on, the refined first
    order point and [fft_shift_later].  Nothing here assigns to [self]. *)
Definition find_first_order_point (image : array2) (region : option Z)
  : result (carray * (Z * Z) * bool) :=
  (let n0 := zlength image in
   let region := match region with None => n0 / 8 | Some r => r end in
   fftarray <~ windowed_spectrum image ;;
   let '(s0, s1) := shape2 fftarray in
   let cx := s1 / 2 in
   let cy := s0 / 2 in
   let fftarray :=
     (* 0.00001+0j *)
     fill2 fftarray (cy - region) (cy + region) (cx - region) (cx + region)
           (0x1.4f8b588e368f1p-17%float, 0%float) in
   tp <~ locate_max fftarray ;;
   let '(t0, t1) := tp in
   let min_dist_to_edge :=
     Z.min (Z.min t0 t1) (Z.min (Z.abs (t0 - s0)) (Z.abs (t1 - s1))) in
   if min_dist_to_edge - min_dist_to_edge mod 2 <? (5 * n0) / 16 then
     let fftarray := fftshift fftarray in
     tp <~ locate_max fftarray ;;
     mp <~ refine_peak fftarray 10 tp ;;
     Ok (fftarray, mp, true)
   else
     mp <~ refine_peak fftarray 10 tp ;;
     Ok (fftarray, mp, false))%py.

(** [make_fft_filter(self, image, region=None)].  Line 169 stores the zero
    array; line 179 writes the window into it in place and may still
    raise. *)
Definition make_fft_filter (image : array2) (region : option Z)
  : M AdaptiveOpticsFunctions array2 :=
  (p <- lift (find_first_order_point image region) ;;
   let '(fftarray, (mx, my), fft_shift_later) := p in
   let '(s0, s1) := shape2 fftarray in
   modify (set_alg_fft_filter (Some (np_zeros2 s0 s1))) ;;;
   let mask_di := (5 * zlength image) / 16 in
   let x := map (sin2_linspace mask_di) (arange 0 mask_di) in
   let fourier_mask := map (fun a => map (PrimFloat.mul a) x) x in
   let y_min := my - mask_di / 2 in
   let y_max := my + (mask_di + 1) / 2 in
   let x_min := mx - mask_di / 2 in
   let x_max := mx + (mask_di + 1) / 2 in
   f <- lift (paste2 (np_zeros2 s0 s1) y_min y_max x_min x_max
                     fourier_mask mask_di mask_di) ;;
   let f := if fft_shift_later then ifftshift f else f in
   modify (set_alg_fft_filter (Some f)) ;;;
   ret f)%py.

(** ** phase_unwrap and get_zernike_modes *)

Definition phase_unwrap (image : array2) : M AdaptiveOpticsFunctions array2 :=
  (s <- get ;; lift (unwrap_kernel (fft_filter s) (mask s) image))%py.

Definition get_zernike_modes (image_unwrap : array2) (noZernikeModes : Z)
    (resize_dim : Z) : result vec :=
  (r <~ zernike_resize image_unwrap resize_dim ;;
   Ok (map (zernike_coefficient r) (arange 1 (noZernikeModes + 1))))%py.

(** ** create_control_matrix *)

(** The locals the actuator loop carries: [slopes] and [C_mat] (a list of
    [noZernikeModes] rows).  [intercepts], [r_values], [p_values],
    [std_errs], [offsets], [P_tests] and [all_zernikeModeAmp] are written
    and never read. *)
Record calibration : Type := mkCal {
  slopes : vec;
  C_mat : array2
}.

(** Lines 279-292 for actuator [ii]: the poke values and the Zernike
    amplitudes of the samples that are kept. *)
Fixpoint poke_samples (s : AdaptiveOpticsFunctions) (imageStack : list array2)
    (x y : Z) (noZernikeModes : Z) (numPokeSteps : Z) (ii : Z)
    (steps : list (Z * float)) : result (list (float * vec)) :=
  match steps with
  | [] => Ok []
  | (jj, poke) :: steps' =>
      match zth imageStack (ii * numPokeSteps + jj) with
      | None => Raise IndexError
      | Some image =>
          (image_unwrap <~ fst (phase_unwrap image s) ;;
           no_discontinuities <~ count_discontinuities x image_unwrap ;;
           if PrimFloat.ltb (PrimFloat.div (float_of_Z (x * y)) 1000)
                            (float_of_Z no_discontinuities)
           then poke_samples s imageStack x y noZernikeModes numPokeSteps ii steps'
           else
             curr_amps <~ get_zernike_modes image_unwrap noZernikeModes 128 ;;
             rest <~ poke_samples s imageStack x y noZernikeModes numPokeSteps
                                  ii steps' ;;
             Ok ((poke, curr_amps) :: rest))%py
      end
  end.

(** Lines 305-310: one regression per mode; a failed one is printed and
    leaves the previous entry of [slopes]. *)
Definition fit_slopes (samples : list (float * vec)) (slopes0 : vec) : vec :=
  mapi (fun kk old =>
          match linregress (map fst samples)
                           (map (fun z => nth (Z.to_nat kk) (snd z) 0%float) samples) with
          | Ok (slope, _, _, _, _) => slope
          | Raise _ => old
          end) slopes0.

(** [C_mat[:, ii] = slopes[:]] *)
Definition set_column (c : array2) (ii : Z) (col : vec) : array2 :=
  map2 (fun row v => set_nth row (Z.to_nat ii) v) c col.

(** Lines 275-317: the body of the loop over actuators. *)
Definition actuator_step (s : AdaptiveOpticsFunctions) (imageStack : list array2)
    (x y : Z) (noZernikeModes : Z) (pokeSteps : vec) (pupil_ac : vec)
    (cal : calibration) (ii : Z) : result calibration :=
  match zth pupil_ac ii with
  | None => Raise IndexError
  | Some included =>
      if PrimFloat.eqb included 1 then
        (samples <~ poke_samples s imageStack x y noZernikeModes
                      (zlength pokeSteps) ii
                      (combine (arange 0 (zlength pokeSteps)) pokeSteps) ;;
         if zlength samples <? 2 then Raise (Exception (slope_message (ii + 1)))
         else
           let slopes' := fit_slopes samples (slopes cal) in
           Ok (mkCal slopes' (set_column (C_mat cal) ii slopes')))%py
      else Ok cal
  end.

Fixpoint actuator_loop (s : AdaptiveOpticsFunctions) (imageStack : list array2)
    (x y : Z) (noZernikeModes : Z) (pokeSteps : vec) (pupil_ac : vec)
    (cal : calibration) (actuators : list Z) : result calibration :=
  match actuators with
  | [] => Ok cal
  | ii :: rest =>
      (cal' <~ actuator_step s imageStack x y noZernikeModes pokeSteps pupil_ac cal ii ;;
       actuator_loop s imageStack x y noZernikeModes pokeSteps pupil_ac cal' rest)%py
  end.

(** Lines 247-270: defaults, the shape of the stack and the zero arrays.  An
    empty stack is taken with [x = y = 0]. *)
Definition calibration_start (imageStack : list array2) (numActuators : Z)
    (noZernikeModes : Z) (pupil_ac : option vec)
  : result (vec * Z * Z * calibration) :=
  if match pupil_ac with None => numActuators <? 0 | Some _ => false end
  then Raise ValueError
  else if (noZernikeModes <? 0) || (numActuators <? 0) then Raise ValueError
  else
    let pupil := match pupil_ac with
                 | None => repeat 1%float (Z.to_nat numActuators)
                 | Some p => p
                 end in
    let '(x, y) := match imageStack with
                   | [] => (0, 0)
                   | image :: _ => shape2 image
                   end in
    if x =? y then
      Ok (pupil, x, y,
          mkCal (np_zeros noZernikeModes) (np_zeros2 noZernikeModes numActuators))
    else Raise AssertionError.

(** [create_control_matrix(self, imageStack, numActuators, noZernikeModes,
    pokeSteps, pupil_ac=None, threshold=0.005)].  The only assignment to
    [self] is line 319. *)
Definition create_control_matrix (imageStack : list array2) (numActuators : Z)
    (noZernikeModes : Z) (pokeSteps : vec) (pupil_ac : option vec)
    (threshold : float) : M AdaptiveOpticsFunctions array2 :=
  (s <- get ;;
   st <- lift (calibration_start imageStack numActuators noZernikeModes pupil_ac) ;;
   let '(pupil, x, y, cal0) := st in
   cal <- lift (actuator_loop s imageStack x y noZernikeModes pokeSteps pupil
                              cal0 (arange 0 numActuators)) ;;
   cm <- lift (np_linalg_pinv (C_mat cal) threshold) ;;
   modify (set_alg_controlMatrix (Some cm)) ;;;
   ret cm)%py.

(** ** ac_pos_from_zernike *)

(** [np.dot] of a 2-D array and a 1-D array. *)
Definition np_dot (m : array2) (v : vec) : result vec :=
  if snd (shape2 m) =? zlength v then Ok (map (fun row => np_inner row v) m)
  else Raise ValueError.

(** [ac_pos_from_zernike(self, applied_z_modes, numActuators)].  The value
    of [np.pad] on line 326 is dropped, and its width is the length of the
    vector minus the mode dimension. *)
Definition ac_pos_from_zernike (applied_z_modes : vec) (numActuators : Z)
  : M AdaptiveOpticsFunctions vec :=
  (s <- get ;;
   match controlMatrix s with
   | None => raise IndexError
   | Some cm =>
       let modes := snd (shape2 cm) in
       z <- (if zlength applied_z_modes <? modes then
               let pad_length := zlength applied_z_modes - modes in
               _ <- lift (np_pad applied_z_modes 0 pad_length) ;;
               ret applied_z_modes
             else if modes <? zlength applied_z_modes then
               ret (py_slice applied_z_modes 0 modes)
             else ret applied_z_modes) ;;
       actuator_pos <- lift (np_dot cm z) ;;
       if zlength actuator_pos =? numActuators then ret actuator_pos
       else raise (Exception "")
   end)%py.

(** ** make_ring_mask *)

(** [make_ring_mask(self, size, inner_rad, outer_rad)]: an int array, 1 on
    the ring. *)
Definition make_ring_mask (size : Z * Z) (inner_rad outer_rad : float)
  : list (list Z) :=
  let radius := fst size / 2 in
  map (fun y =>
         map (fun x =>
                let outer_mask := PrimFloat.ltb (pixel_dist y x) outer_rad in
                let inner_mask_neg := PrimFloat.ltb (pixel_dist y x) inner_rad in
                let inner_mask := (Z.b2z inner_mask_neg - 1) * -1 in
                Z.b2z outer_mask * inner_mask)
             (arange (- radius) radius))
      (arange (- radius) radius).

(** ** measure_fourier_metric *)

(** [np.linspace(start, stop, num)]. *)
Definition np_linspace (start stop : float) (num : Z) : result vec :=
  if num <? 0 then Raise ValueError
  else
    let div := float_of_Z (num - 1) in
    let delta := PrimFloat.sub stop start in
    let y := map float_of_Z (arange 0 num) in
    let y :=
      if 1 <? num then
        let step := PrimFloat.div delta div in
        if PrimFloat.eqb step 0
        then map (fun k => PrimFloat.mul (PrimFloat.div k div) delta) y
        else map (fun k => PrimFloat.mul k step) y
      else map (fun k => PrimFloat.mul k delta) y in
    let y := map (fun v => PrimFloat.add v start) y in
    Ok (if 1 <? num then set_nth y (Z.to_nat (num - 1)) stop else y).

(** [a[ring_mask != 0]]: the shapes must agree. *)
Definition select_masked (a : array2) (ring_mask : list (list Z)) : result vec :=
  let '(a0, a1) := shape2 a in
  let '(m0, m1) := shape2 ring_mask in
  if (a0 =? m0) && (a1 =? m1) then
    Ok (concat (map2 (fun ra rm =>
                        map fst (filter (fun p => negb (snd p =? 0)) (combine ra rm)))
                     a ring_mask))
  else Raise IndexError.

(** Lines 371-372 for ring [ii]. *)
Definition ring_metric (size : Z * Z) (fftarray_sq : array2) (radii : vec)
    (ii : Z) : result float :=
  match zth radii ii, zth radii (ii + 1) with
  | Some r0, Some r1 =>
      (values <~ select_masked fftarray_sq (make_ring_mask size r0 r1) ;;
       Ok (PrimFloat.sqrt (np_mean values)))%py
  | _, _ => Raise IndexError
  end.

Fixpoint ring_metrics (size : Z * Z) (fftarray_sq : array2) (radii : vec)
    (rings : list Z) : result vec :=
  match rings with
  | [] => Ok []
  | ii :: rest =>
      (m <~ ring_metric size fftarray_sq radii ii ;;
       ms <~ ring_metrics size fftarray_sq radii rest ;;
       Ok (m :: ms))%py
  end.

(** [np.shape(image)[0] / 2] on line 358. *)
Definition half_side (n : Z) : float :=
  match py with
  | Python2 => float_of_Z (n / 2)
  | Python3 => PrimFloat.div (float_of_Z n) 2
  end.

(** Lines 354-358. *)
Definition OTF_outer_rad (side : Z) (wavelength NA pixel_size : float) : float :=
  let ray_crit_dist := PrimFloat.div (PrimFloat.mul 1.22 wavelength)
                                     (PrimFloat.mul 2 NA) in
  let ray_crit_freq := PrimFloat.div 1 ray_crit_dist in
  let max_freq := PrimFloat.div 1 (PrimFloat.mul 2 pixel_size) in
  let freq_ratio := PrimFloat.div ray_crit_freq max_freq in
  PrimFloat.mul freq_ratio (half_side side).

(** Lines 368-375: the ring boundaries and the ring values. *)
Definition RMS_metrics (image : array2) (num_segs : Z)
    (wavelength NA pixel_size : float) : result vec :=
  (let outer := OTF_outer_rad (fst (shape2 image)) wavelength NA pixel_size in
   fftarray_sq <~ power_spectrum image ;;
   radii <~ np_linspace (PrimFloat.mul 0.1 outer) outer (num_segs + 1) ;;
   ring_metrics (shape2 image) fftarray_sq radii (arange 0 (num_segs - 1)))%py.

(** [measure_fourier_metric(self, image, num_segs, wavelength, NA,
    pixel_size)]. *)
Definition measure_fourier_metric (image : array2) (num_segs : Z)
    (wavelength NA pixel_size : float) : result vec :=
  (rms <~ RMS_metrics image num_segs wavelength NA pixel_size ;;
   let no_RMS_metrics := map float_of_Z (arange 0 (zlength rms)) in
   fit <~ linregress no_RMS_metrics (map np_log rms) ;;
   let '(slope, intercept, r_value, p_value, std_err) := fit in
   Ok [slope; intercept; r_value; np_log p_value; std_err])%py.

(** ** The sensorless estimator *)

(** The defaults of [measure_fourier_metric]: [500 * 10 ** -9], [1.1] and
    [0.1193 * 10 ** -6]. *)
Definition default_wavelength : float := PrimFloat.mul 500 0x1.12e0be826d695p-30.
Definition default_NA : float := 1.1.
Definition default_pixel_size : float := PrimFloat.mul 0.1193 0x1.0c6f7a0b5ed8dp-20.

Fixpoint measure_all (image_stack : list array2) (num_segs : Z)
  : result (list vec) :=
  match image_stack with
  | [] => Ok []
  | image :: rest =>
      (m <~ measure_fourier_metric image num_segs default_wavelength
              default_NA default_pixel_size ;;
       ms <~ measure_all rest num_segs ;;
       Ok (m :: ms))%py
  end.

Fixpoint fit_amplitudes (zernike_amplitudes : vec) (metrics_measured : list vec)
    (columns : list Z) : result vec :=
  match columns with
  | [] => Ok []
  | ii :: rest =>
      (fit <~ np_polyfit2 zernike_amplitudes
                (map (fun m => nth (Z.to_nat ii) m 0%float) metrics_measured) ;;
       let '(a_2, a_1, a_0) := fit in
       let amplitude_measured :=
         PrimFloat.div (PrimFloat.mul (-1) a_1) (PrimFloat.mul 2 a_2) in
       amps <~ fit_amplitudes zernike_amplitudes metrics_measured rest ;;
       Ok (amplitude_measured :: amps))%py
  end.

(** [find_zernike_amp_sensorless(self, image_stack, zernike_amplitudes,
    num_segs, pixel_size)]: [pixel_size] is not passed on.  With no image
    [metric_measured] is unbound on line 395. *)
Definition find_zernike_amp_sensorless (image_stack : list array2)
    (zernike_amplitudes : vec) (num_segs : Z) : result float :=
  (metrics_measured <~ measure_all image_stack num_segs ;;
   match metrics_measured with
   | [] => Raise UnboundLocalError
   | _ :: _ =>
       let metric_measured := last metrics_measured [] in
       amps <~ fit_amplitudes zernike_amplitudes metrics_measured
                 (arange 0 (zlength metric_measured)) ;;
       Ok (np_mean amps)
   end)%py.

(** Lines 410-415: the loop over the selected modes, on [coef].  [numMes] is
    a float under Python 3 and the slices of line 411 refuse it. *)
Fixpoint sensorless_loop (full_image_stack : list array2)
    (full_zernike_applied : array2) (nollZernike : list Z) (num_segs : Z)
    (numMes : Z) (todo : list Z) (coef : vec) : result vec :=
  match todo with
  | [] => Ok coef
  | ii :: rest =>
      match py with
      | Python3 => Raise TypeError
      | Python2 =>
          let image_stack :=
            py_slice full_image_stack (ii * numMes) ((ii + 1) * numMes) in
          match zth nollZernike ii with
          | None => Raise IndexError
          | Some noll =>
              match py_index (snd (shape2 full_zernike_applied)) (noll - 1) with
              | None => Raise IndexError
              | Some col =>
                  let zernike_applied :=
                    map (fun row => nth (Z.to_nat col) row 0%float)
                        (py_slice full_zernike_applied (ii * numMes)
                                  ((ii + 1) * numMes)) in
                  (amp <~ find_zernike_amp_sensorless image_stack
                            zernike_applied num_segs ;;
                   sensorless_loop full_image_stack full_zernike_applied
                     nollZernike num_segs numMes rest
                     (set_nth coef (Z.to_nat col) amp))%py
              end
          end
      end
  end.

(** [get_zernike_modes_sensorless(self, full_image_stack,
    full_zernike_applied, nollZernike, num_segs, pixel_size)]. *)
Definition get_zernike_modes_sensorless (full_image_stack : list array2)
    (full_zernike_applied : array2) (nollZernike : list Z) (num_segs : Z)
  : result vec :=
  if zlength nollZernike =? 0 then Raise ZeroDivisionError
  else
    let numMes := zlength full_zernike_applied / zlength nollZernike in
    let coef := np_zeros (snd (shape2 full_zernike_applied)) in
    sensorless_loop full_image_stack full_zernike_applied nollZernike num_segs
      numMes (arange 0 (zlength nollZernike)) coef.

End Algorithms.

(** ** AdaptiveOpticsDevice (aoDev.py) *)

(** The fields of the device; [mask], [fft_filter] and [controlMatrix] of
    the source are [dev_mask], [dev_fft_filter] and [dev_controlMatrix]
    here, apart from those of the algorithm object. *)
Record AdaptiveOpticsDevice : Type := mkDev {
  roi : option (Z * Z * Z);
  dev_mask : option bmask;
  dev_fft_filter : option array2;
  dev_controlMatrix : option array2;
  numActuators : Z;
  flat_actuators_sys : vec;
  pupil_ac : vec;
  out : option array2
}.

(** The process: the module-level [aoAlg] object, the device, the patterns
    the mirror was given (latest first) and the number of frames taken. *)
Record world : Type := mkWorld {
  aoAlg : AdaptiveOpticsFunctions;
  dev : AdaptiveOpticsDevice;
  mirror : list vec;
  frames : nat
}.

(** The camera: the reply to [soft_trigger] and [get_current_image] that
    ends the retry loop of [acquire], for the frame number and the patterns
    applied so far. *)
Class Hardware : Type := {
  camera : nat -> list vec -> result array2
}.

Definition set_dev (f : AdaptiveOpticsDevice -> AdaptiveOpticsDevice) (w : world) :=
  mkWorld (aoAlg w) (f (dev w)) (mirror w) (frames w).

Definition set_roi_field (r : option (Z * Z * Z)) (d : AdaptiveOpticsDevice) :=
  mkDev r (dev_mask d) (dev_fft_filter d) (dev_controlMatrix d)
        (numActuators d) (flat_actuators_sys d) (pupil_ac d) (out d).
Definition set_dev_mask (m : option bmask) (d : AdaptiveOpticsDevice) :=
  mkDev (roi d) m (dev_fft_filter d) (dev_controlMatrix d)
        (numActuators d) (flat_actuators_sys d) (pupil_ac d) (out d).
Definition set_dev_fft_filter (f : option array2) (d : AdaptiveOpticsDevice) :=
  mkDev (roi d) (dev_mask d) f (dev_controlMatrix d)
        (numActuators d) (flat_actuators_sys d) (pupil_ac d) (out d).
Definition set_out (o : option array2) (d : AdaptiveOpticsDevice) :=
  mkDev (roi d) (dev_mask d) (dev_fft_filter d) (dev_controlMatrix d)
        (numActuators d) (flat_actuators_sys d) (pupil_ac d) o.

(** A call of a method of [aoAlg] from the device. *)
Definition call_aoAlg {A} (m : M AdaptiveOpticsFunctions A) : M world A :=
  fun w => let '(r, a) := m (aoAlg w) in
           (r, mkWorld a (dev w) (mirror w) (frames w)).

Definition roi_message : string :=
  "No region of interest selected. Please select a region of interest".
Definition dimension_message : string :=
  "Control Matrix dimension 0 axis and number of actuators do not match.".

(** [values[values > 1.0] = 1.0; values[values < 0.0] = 0.0] on one entry. *)
Definition clamp01 (v : float) : float :=
  if PrimFloat.ltb 1 v then 1%float
  else if PrimFloat.ltb v 0 then 0%float else v.

(** [a += b] in place on 1-D arrays. *)
Definition np_iadd1 (a b : vec) : result vec :=
  if zlength a =? zlength b then Ok (map2 PrimFloat.add a b)
  else match b with
       | [y] => Ok (map (fun x => PrimFloat.add x y) a)
       | _ => Raise ValueError
       end.

(** [a * m] for an image and a mask of one shape. *)
Definition mul_mask (a : array2) (m : bmask) : result array2 :=
  if (fst (shape2 a) =? fst (shape2 m)) && (snd (shape2 a) =? snd (shape2 m))
  then Ok (map2 (map2 (fun v (b : bool) => if b then PrimFloat.mul v 1 else PrimFloat.mul v 0)) a m)
  else Raise ValueError.

Section Device.
Context {lib : Numerics} {hw : Hardware}.
Variable py : dialect.

(** [send(self, values)]: the array is clamped in place and applied; the
    clamped array is what the caller holds afterwards. *)
Definition send (values : vec) : M world vec :=
  let values := map clamp01 values in
  (modify (fun w => mkWorld (aoAlg w) (dev w) (values :: mirror w) (frames w)) ;;;
   ret values)%py.

(** [set_roi(self, y0, x0, radius)] *)
Definition set_roi (y0 x0 radius : Z) : M world unit :=
  (modify (set_dev (set_roi_field (Some (y0, x0, radius)))) ;;;
   m <- call_aoAlg (make_mask radius) ;;
   modify (set_dev (set_dev_mask (Some m))) ;;;
   modify (set_dev (set_dev_fft_filter None)))%py.

(** [make_mask(self, radius)] of the device. *)
Definition dev_make_mask (radius : Z) : M world bmask :=
  (m <- call_aoAlg (make_mask radius) ;;
   modify (set_dev (set_dev_mask (Some m))) ;;;
   ret m)%py.

(** [acquire(self)] *)
Definition acquire : M world array2 :=
  (w <- get ;;
   modify (fun w => mkWorld (aoAlg w) (dev w) (mirror w) (S (frames w))) ;;;
   data_raw <- lift (camera (frames w) (mirror w)) ;;
   match roi (dev w) with
   | None => ret data_raw
   | Some (y0, x0, r) =>
       if r <? 0 then raise ValueError
       else
         let block := slice2 data_raw (y0 - r) (y0 + r) (x0 - r) (x0 + r) in
         let '(s0, s1) := shape2 data_raw in
         data_cropped <- lift (paste2 (np_zeros2 (2 * r) (2 * r)) 0 (2 * r) 0 (2 * r)
                                      block (slice_len s0 (y0 - r) (y0 + r))
                                      (slice_len s1 (x0 - r) (x0 + r))) ;;
         match dev_mask (dev w) with
         | None => _ <- dev_make_mask r ;; ret data_cropped
         | Some m => lift (mul_mask data_cropped m)
         end
   end)%py.

(** [set_fourierfilter(self, test_image, region=None)]: an exception of
    [make_fft_filter] is logged and dropped. *)
Definition set_fourierfilter (test_image : array2) (region : option Z)
  : M world (option array2) :=
  (w <- get ;;
   match roi (dev w) with
   | None => raise (Exception roi_message)
   | Some _ =>
       fun w =>
         match call_aoAlg (make_fft_filter py test_image region) w with
         | (Ok f, w') => (Ok (Some f), set_dev (set_dev_fft_filter (Some f)) w')
         | (Raise _, w') => (Ok (dev_fft_filter (dev w')), w')
         end
   end)%py.

(** [int(np.round(np.shape(image)[0] / 2))] *)
Definition half_round (n : Z) : Z :=
  match py with
  | Python2 => n / 2
  | Python3 => if Z.even n then n / 2
               else if Z.even (n / 2) then n / 2 else n / 2 + 1
  end.

(** [phaseunwrap(self, image)] with an image given. *)
Definition phaseunwrap (image : array2) : M world array2 :=
  (w <- get ;;
   match roi (dev w) with
   | None => raise (Exception roi_message)
   | Some _ =>
       (match dev_mask (dev w) with
        | None => _ <- dev_make_mask (half_round (fst (shape2 image))) ;; ret tt
        | Some _ => ret tt
        end) ;;;
       (match dev_fft_filter (dev w) with
        | None =>
            f <- set_fourierfilter image None ;;
            modify (set_dev (set_dev_fft_filter f))
        | Some _ => ret tt
        end) ;;;
       u <- call_aoAlg (phase_unwrap image) ;;
       modify (set_dev (set_out (Some u))) ;;;
       ret u
   end)%py.

(** [getzernikemodes(self, image_unwrap, noZernikeModes, resize_dim=128)] *)
Definition getzernikemodes (image_unwrap : array2) (noZernikeModes : Z)
  : M world vec :=
  lift (get_zernike_modes image_unwrap noZernikeModes 128).

(** [set_phase(self, applied_z_modes, offset)] *)
Definition set_phase (applied_z_modes : vec) (offset : option vec) : M world vec :=
  (w <- get ;;
   p <- call_aoAlg (ac_pos_from_zernike applied_z_modes (numActuators (dev w))) ;;
   let actuator_pos := map (PrimFloat.mul (-1)) p in
   actuator_pos <- lift (match offset with
                         | None => Ok (map (fun v => PrimFloat.add v 0.5) actuator_pos)
                         | Some o => np_iadd1 actuator_pos o
                         end) ;;
   send actuator_pos)%py.

(** The three values [flatten_phase] keeps across its loop. *)
Record best : Type := mkBest {
  best_flat_actuators : vec;
  best_z_amps : vec;
  best_rms_error : float
}.

(** Lines 489-498: what is kept after one measurement.  The write in place
    of line 498 replaces every entry: both arrays have [numActuators]
    entries, by the checks of lines 335 and 454. *)
Definition keep_best (b : best) (flat_actuators z_amps : vec) (rms_error : float)
  : best :=
  if PrimFloat.ltb rms_error (best_rms_error b) then
    mkBest flat_actuators z_amps rms_error
  else if PrimFloat.ltb (best_rms_error b) rms_error then b
  else mkBest flat_actuators (best_z_amps b) (best_rms_error b).

(** The vector kept is one that [send] has clamped. *)
Definition clamped (b : best) : Prop :=
  map clamp01 (best_flat_actuators b) = best_flat_actuators b.

(** Lines 479-498: one round of the loop. *)
Definition flatten_step (nzernike : Z) (z_modes_ignore : vec) (b : best)
  : M world best :=
  (interferogram <- acquire ;;
   interferogram_unwrap <- phaseunwrap interferogram ;;
   z_amps <- getzernikemodes interferogram_unwrap nzernike ;;
   z_amps <- lift (np_mul1 z_amps z_modes_ignore) ;;
   flat_actuators <- set_phase z_amps (Some (best_flat_actuators b)) ;;
   let rms_error := rms_of interferogram_unwrap in
   ret (keep_best b flat_actuators z_amps rms_error))%py.

Fixpoint flatten_loop (nzernike : Z) (z_modes_ignore : vec) (rounds : nat)
    (b : best) : M world best :=
  match rounds with
  | O => ret b
  | S rounds' =>
      (b' <- flatten_step nzernike z_modes_ignore b ;;
       flatten_loop nzernike z_modes_ignore rounds' b')%py
  end.

(** Lines 436-464: the checks before the loop; the shape of the control
    matrix and the modes to ignore.  [range(n) > 2] is [True] under
    Python 2, a single 1 for the product of line 484, and a [TypeError]
    under Python 3. *)
Definition flatten_start (z_modes_ignore : option vec) : M world (Z * Z * vec) :=
  (w <- get ;;
   match roi (dev w) with
   | None => raise (Exception roi_message)
   | Some _ =>
       (match dev_fft_filter (dev w) with
        | None =>
            test_image <- acquire ;;
            f <- set_fourierfilter test_image None ;;
            modify (set_dev (set_dev_fft_filter f))
        | Some _ => ret tt
        end) ;;;
       w <- get ;;
       match dev_controlMatrix (dev w) with
       | None => raise ValueError
       | Some cm =>
           let '(nact, nzernike) := shape2 cm in
           if nact =? numActuators (dev w) then
             match z_modes_ignore with
             | Some z => ret (nact, nzernike, z)
             | None =>
                 match py with
                 | Python2 => ret (nact, nzernike, [1%float])
                 | Python3 => raise TypeError
                 end
             end
           else raise (Exception dimension_message)
       end
   end)%py.

(** Lines 466-476: the rest position is sent and the first error measured. *)
Definition flatten_first (nact nzernike : Z) : M world best :=
  (best_flat_actuators <- send (map (fun v => PrimFloat.add v 0.5) (np_zeros nact)) ;;
   interferogram <- acquire ;;
   interferogram_unwrap <- phaseunwrap interferogram ;;
   ret (mkBest best_flat_actuators (np_zeros nzernike)
               (rms_of interferogram_unwrap)))%py.

(** [flatten_phase(self, iterations=1, z_modes_ignore=None)] *)
Definition flatten_phase (iterations : Z) (z_modes_ignore : option vec)
  : M world vec :=
  (st <- flatten_start z_modes_ignore ;;
   let '(nact, nzernike, ignore) := st in
   b0 <- flatten_first nact nzernike ;;
   b <- flatten_loop nzernike ignore (Z.to_nat iterations) b0 ;;
   send (best_flat_actuators b))%py.

End Device.

(** ** The getters and setters of the device *)

Definition filter_message : string :=
  "No Fourier filter created. Please create one.".
Definition matrix_message : string :=
  "No control matrix calculated. Please calibrate the mirror".

Definition set_dev_controlMatrix (c : option array2) (d : AdaptiveOpticsDevice) :=
  mkDev (roi d) (dev_mask d) (dev_fft_filter d) c
        (numActuators d) (flat_actuators_sys d) (pupil_ac d) (out d).

(** [get_roi(self)] *)
Definition get_roi : M world (Z * Z * Z) :=
  (w <- get ;;
   match roi (dev w) with
   | None => raise (Exception roi_message)
   | Some r => ret r
   end)%py.

(** [get_fourierfilter(self)] *)
Definition get_fourierfilter : M world array2 :=
  (w <- get ;;
   match dev_fft_filter (dev w) with
   | None => raise (Exception filter_message)
   | Some f => ret f
   end)%py.

(** [get_controlMatrix(self)] *)
Definition get_controlMatrix : M world array2 :=
  (w <- get ;;
   match dev_controlMatrix (dev w) with
   | None => raise (Exception matrix_message)
   | Some c => ret c
   end)%py.

(** [set_controlMatrix(self, controlMatrix)]: the device and the module-level
    [aoAlg] are both given the matrix. *)
Definition set_controlMatrix (cm : array2) : M world unit :=
  (modify (set_dev (set_dev_controlMatrix (Some cm))) ;;;
   modify (fun w => mkWorld (set_alg_controlMatrix (Some cm) (aoAlg w))
                            (dev w) (mirror w) (frames w)))%py.

(** ** Measuring on the device *)

Section DeviceMeasure.
Context {lib : Numerics} {hw : Hardware}.
Variable py : dialect.

(** [reset(self)] *)
Definition reset : M world unit :=
  (w <- get ;;
   if numActuators (dev w) <? 0 then raise ValueError
   else
     _ <- send (map (fun v => PrimFloat.add v 0.5) (np_zeros (numActuators (dev w)))) ;;
     ret tt)%py.

(** [acquire_unwrapped_phase(self)] *)
Definition acquire_unwrapped_phase : M world (array2 * array2) :=
  (w <- get ;;
   match roi (dev w) with
   | None => raise (Exception roi_message)
   | Some _ =>
       (match dev_fft_filter (dev w) with
        | None =>
            test_image <- acquire ;;
            f <- set_fourierfilter py test_image None ;;
            modify (set_dev (set_dev_fft_filter f))
        | Some _ => ret tt
        end) ;;;
       interferogram <- acquire ;;
       interferogram_unwrap <- phaseunwrap py interferogram ;;
       ret (interferogram, interferogram_unwrap)
   end)%py.

(** [measure_zernike(self, noZernikeModes)] *)
Definition measure_zernike (noZernikeModes : Z) : M world vec :=
  (p <- acquire_unwrapped_phase ;;
   let '(interferogram, unwrapped_phase) := p in
   getzernikemodes unwrapped_phase noZernikeModes)%py.

End DeviceMeasure.

(** ** get_zernike_modes: the choice of the resize dimension *)

(** Lines 229-230: [while original_dim % resize_dim is not 0: resize_dim -= 1],
    run for at most [fuel] tests of the condition. *)
Fixpoint resize_search (fuel : nat) (original_dim resize_dim : Z)
  : option (result Z) :=
  match fuel with
  | O => None
  | S fuel' =>
      if resize_dim =? 0 then Some (Raise ZeroDivisionError)
      else if original_dim mod resize_dim =? 0 then Some (Ok resize_dim)
      else resize_search fuel' original_dim (resize_dim - 1)
  end.

(** Lines 229-235: the dimension [bin_ndarray] is called with.  Under
    Python 3 the quotient of line 233 is a float, which the [reshape] of
    [bin_ndarray] refuses. *)
Definition choose_resize_dim (py : dialect) (fuel : nat)
    (original_dim resize_dim : Z) : option (result Z) :=
  match resize_search fuel original_dim resize_dim with
  | None => None
  | Some (Raise e) => Some (Raise e)
  | Some (Ok d) =>
      if d <? original_dim / d then
        match py with
        | Python2 => Some (Ok (original_dim / d))
        | Python3 => Some (Raise TypeError)
        end
      else Some (Ok d)
  end.

(** ** What a run of the device keeps *)

(** From [w] to [w']: the region of interest, the number of actuators and
    the control matrices are the same, the mirror was given some more
    patterns, each of them clamped, and no frame was given back. *)
Definition device_run (w w' : world) : Prop :=
  roi (dev w') = roi (dev w) /\
  numActuators (dev w') = numActuators (dev w) /\
  dev_controlMatrix (dev w') = dev_controlMatrix (dev w) /\
  controlMatrix (aoAlg w') = controlMatrix (aoAlg w) /\
  (exists new, mirror w' = new ++ mirror w /\
               Forall (fun p => map clamp01 p = p) new) /\
  (frames w <= frames w')%nat.

(** A run that, moreover, gives the mirror nothing. *)
Definition quiet_run (w w' : world) : Prop :=
  roi (dev w') = roi (dev w) /\
  numActuators (dev w') = numActuators (dev w) /\
  dev_controlMatrix (dev w') = dev_controlMatrix (dev w) /\
  controlMatrix (aoAlg w') = controlMatrix (aoAlg w) /\
  mirror w' = mirror w /\
  (frames w <= frames w')%nat.

(** The methods of [aoAlg] that the device calls leave its control matrix
    alone. *)
Definition keeps_matrix (s s' : AdaptiveOpticsFunctions) : Prop :=
  controlMatrix s' = controlMatrix s.

(** No entry of a pattern is above 1 or below 0. *)
Definition in_unit_range (v : float) : Prop :=
  PrimFloat.ltb 1 v = false /\ PrimFloat.ltb v 0 = false.

(** The vector kept has [n] entries, none above 1 or below 0. *)
Definition sized (n : Z) (b : best) : Prop :=
  zlength (best_flat_actuators b) = n /\
  Forall in_unit_range (best_flat_actuators b).

(** A computation all of whose runs, ended by a value or by an exception,
    are in the relation [R]. *)
Definition respects {S A} (R : S -> S -> Prop) (m : M S A) : Prop :=
  forall s r s', m s = (r, s') -> R s s'.

(** Column [k] of a 2-D array. *)
Definition column {A} (c : list (list A)) (k : nat) : list (option A) :=
  map (fun row => nth_error row k) c.

(** ** A simulated library and camera

    Stand-ins for the library routines and the camera, used to run the
    definitions on concrete inputs. *)

Definition dot_left (a b : vec) : float :=
  fold_left PrimFloat.add (map2 PrimFloat.mul a b) 0%float.

Definition mean_left (a : vec) : float :=
  PrimFloat.div (fold_left PrimFloat.add a 0%float) (float_of_Z (zlength a)).

(** The flat index of the first largest real part. *)
Definition argmax_real (a : carray) : Z :=
  match map fst (concat a) with
  | [] => 0
  | v :: rest =>
      fst (fst (fold_left
                  (fun '(bi, bv, i) x =>
                     if PrimFloat.ltb bv x then (i, x, i + 1) else (bi, bv, i + 1))
                  rest (0, v, 1)))
  end.

(** A frame counts as torn when its first pixel is positive. *)
Definition torn (image : array2) : result Z :=
  match image with
  | (v :: _) :: _ => if PrimFloat.ltb 0 v then Ok 1000000 else Ok 0
  | _ => Ok 0
  end.

Definition sim : Numerics := {|
  np_inner := dot_left;
  np_mean := mean_left;
  np_log := fun v => v;
  np_linalg_pinv := fun m _ => Ok m;
  np_polyfit2 := fun _ _ => Ok (1%float, 1%float, 1%float);
  linregress := fun _ _ => Ok (0%float, 0%float, 0%float, 0%float, 0%float);
  windowed_spectrum := fun image => Ok (map (map (fun v => (v, 0%float))) image);
  np_argmax := argmax_real;
  window_centroid := fun _ => Some (25, 25);
  sin2_linspace := fun _ _ => 1%float;
  unwrap_kernel := fun _ _ image => Ok image;
  count_discontinuities := fun _ image => torn image;
  zernike_resize := fun image d => Ok (image, d);
  zernike_coefficient := fun _ _ => 0.25%float;
  power_spectrum := fun image => Ok image;
  rms_of := fun _ => 1%float
|}.

Definition sim_camera : Hardware := {|
  camera := fun _ _ => Ok [[1%float; 1%float]; [1%float; 1%float]]
|}.

(** The same library with a regression that always fails. *)
Definition sim_no_fit : Numerics := {|
  np_inner := dot_left;
  np_mean := mean_left;
  np_log := fun v => v;
  np_linalg_pinv := fun m _ => Ok m;
  np_polyfit2 := fun _ _ => Ok (1%float, 1%float, 1%float);
  linregress := fun _ _ => Raise ValueError;
  windowed_spectrum := fun image => Ok (map (map (fun v => (v, 0%float))) image);
  np_argmax := argmax_real;
  window_centroid := fun _ => Some (25, 25);
  sin2_linspace := fun _ _ => 1%float;
  unwrap_kernel := fun _ _ image => Ok image;
  count_discontinuities := fun _ image => torn image;
  zernike_resize := fun image d => Ok (image, d);
  zernike_coefficient := fun _ _ => 0.25%float;
  power_spectrum := fun image => Ok image;
  rms_of := fun _ => 1%float
|}.

(** Four dark 2 by 2 frames. *)
Definition dark_stack : list array2 :=
  repeat [[0%float; 0%float]; [0%float; 0%float]] 4.

(** An [n] by [n] array, 1 at row [r] and column [c] and 0 elsewhere. *)
Definition peak_image (n r c : Z) : array2 :=
  map (fun i => map (fun j => if (i =? r) && (j =? c) then 1%float else 0%float)
                    (arange 0 n))
      (arange 0 n).

(** A device with one actuator, a region of interest of radius 1, a filter
    and the 1 by 1 control matrix [[1]]. *)
Definition one_actuator_world : world :=
  mkWorld
    (mkAlg (Some [[false; false]; [false; true]]) (Some [[1%float]])
           (Some [[1%float]]) None)
    (mkDev (Some (1, 1, 1)) (Some [[false; false]; [false; true]])
           (Some [[1%float]]) (Some [[1%float]]) 1 [0%float] [1%float] None)
    [] 0.

(** * Properties *)

(** ** Lists, ranges and indices *)

Lemma arange_length a b : zlength (arange a b) = Z.max 0 (b - a).
Proof. unfold zlength, arange. rewrite length_map, length_seq. lia. Qed.

Lemma zth_arange a b i :
  0 <= i < b - a -> zth (arange a b) i = Some (a + i).
Proof.
  intros H. unfold zth, arange.
  destruct (Z.ltb_spec i 0); [lia|].
  rewrite nth_error_map, nth_error_seq.
  destruct (Nat.ltb_spec (Z.to_nat i) (Z.to_nat (b - a))); [|lia].
  simpl. f_equal. lia.
Qed.

Lemma zth_map {A B} (f : A -> B) l i :
  zth (map f l) i = option_map f (zth l i).
Proof. unfold zth. destruct (i <? 0); [reflexivity|]. apply nth_error_map. Qed.

Lemma zlength_map {A B} (f : A -> B) l : zlength (map f l) = zlength l.
Proof. unfold zlength. now rewrite length_map. Qed.

Lemma arange_snoc a b : a <= b -> arange a (b + 1) = arange a b ++ [b].
Proof.
  intros H. unfold arange.
  replace (Z.to_nat (b + 1 - a)) with (Z.to_nat (b - a) + 1)%nat by lia.
  rewrite seq_app, map_app. simpl. do 3 f_equal. lia.
Qed.

(** ** The state monad *)

Lemma bind_ok {S A B} (m : M S A) (k : A -> M S B) s a s' :
  m s = (Ok a, s') -> bind m k s = k a s'.
Proof. intros H. unfold bind. now rewrite H. Qed.

Lemma bind_inv_ok {S A B} (m : M S A) (k : A -> M S B) s b s' :
  bind m k s = (Ok b, s') ->
  exists a s1, m s = (Ok a, s1) /\ k a s1 = (Ok b, s').
Proof.
  unfold bind. destruct (m s) as [[a|e] s1]; intros H.
  - now exists a, s1.
  - discriminate.
Qed.

(** ** make_mask *)

Lemma disk_at r i j :
  0 <= i < 2 * r -> 0 <= j < 2 * r ->
  at2 (disk r) i j =
  Some (PrimFloat.ltb (pixel_dist (i - r) (j - r)) (float_of_Z r)).
Proof.
  intros Hi Hj. unfold at2, disk.
  rewrite zth_map, zth_arange by lia. simpl.
  rewrite zth_map, zth_arange by lia. simpl.
  now replace (- r + i) with (i - r) by lia; replace (- r + j) with (j - r) by lia.
Qed.

Lemma make_mask_ok r s :
  0 <= r -> make_mask r s = (Ok (disk r), set_alg_mask (Some (disk r)) s).
Proof.
  intros H. reflexivity.
Qed.

(** C7, as stated, fails: the mask of radius 1 is False at [0][0] and True at
    its image [1][1] under the rotation about the grid centre. *)
Lemma make_mask_not_symmetric_about_grid_centre :
  make_mask 1 alg_init = (Ok (disk 1), set_alg_mask (Some (disk 1)) alg_init) /\
  at2 (disk 1) 0 0 = Some false /\
  at2 (disk 1) (2 * 1 - 1 - 0) (2 * 1 - 1 - 0) = Some true.
Proof. repeat split; vm_compute; reflexivity. Qed.

(** C7, amended: for a radius r > 0, make_mask(r) returns the same mask
    whatever the state it is called in, of 2r rows of 2r entries, and the mask
    is symmetric under the half turn about pixel (r, r), on which the disk is
    centred: mask[i][j] = mask[2r-i][2r-j] for 0 < i, j < 2r. *)
Theorem make_mask_symmetric_about_pixel_r (r : Z) (Hr : 0 < r) :
  (forall s1 s2, fst (make_mask r s1) = fst (make_mask r s2)) /\
  (forall s, fst (make_mask r s) = Ok (disk r)) /\
  zlength (disk r) = 2 * r /\
  (forall row, In row (disk r) -> zlength row = 2 * r) /\
  (forall i j, 0 < i < 2 * r -> 0 < j < 2 * r ->
     at2 (disk r) i j = at2 (disk r) (2 * r - i) (2 * r - j)).
Proof.
  assert (Hs : forall s, fst (make_mask r s) = Ok (disk r)).
  { intros s. rewrite make_mask_ok by lia. reflexivity. }
  split; [|split; [|split; [|split]]].
  - intros s1 s2. now rewrite !Hs.
  - exact Hs.
  - unfold disk, zlength. rewrite length_map. fold (zlength (arange (- r) r)).
    rewrite arange_length. lia.
  - intros row Hin. unfold disk in Hin. apply in_map_iff in Hin.
    destruct Hin as [y [<- _]]. unfold zlength. rewrite length_map.
    fold (zlength (arange (- r) r)). rewrite arange_length. lia.
  - intros i j Hi Hj. rewrite !disk_at by lia. unfold pixel_dist.
    now replace ((2 * r - i - r) * (2 * r - i - r) + (2 * r - j - r) * (2 * r - j - r))
      with ((i - r) * (i - r) + (j - r) * (j - r)) by nia.
Qed.

Lemma make_mask_symmetric_about_pixel_r_witness :
  at2 (disk 2) 1 3 = at2 (disk 2) (2 * 2 - 1) (2 * 2 - 3).
Proof.
  apply (make_mask_symmetric_about_pixel_r 2); lia.
Defined.

(** ** set_roi *)

(** C6, as stated, fails: a control matrix held before [set_roi] is still
    held, by the device and by the algorithm object, after it. *)
Lemma set_roi_keeps_control_matrix :
  exists w', set_roi 1 1 1 one_actuator_world = (Ok tt, w') /\
    dev_controlMatrix (dev w') = Some [[1%float]] /\
    controlMatrix (aoAlg w') = Some [[1%float]].
Proof. eexists. repeat split. Qed.

(** C6, amended: after set_roi with a radius >= 0 the region of interest is
    recorded, the pupil mask held by the device (and by the algorithm object)
    is the mask of that radius, and the Fourier filter held by the device is
    unset; the control matrix, of the device and of the algorithm object, is
    left as it was, and so are the filter of the algorithm object, the mirror
    and the camera. *)
Theorem set_roi_effect (w : world) (y0 x0 radius : Z) (Hr : 0 <= radius) :
  exists w', set_roi y0 x0 radius w = (Ok tt, w') /\
    roi (dev w') = Some (y0, x0, radius) /\
    dev_mask (dev w') = Some (disk radius) /\
    mask (aoAlg w') = Some (disk radius) /\
    dev_fft_filter (dev w') = None /\
    dev_controlMatrix (dev w') = dev_controlMatrix (dev w) /\
    controlMatrix (aoAlg w') = controlMatrix (aoAlg w) /\
    fft_filter (aoAlg w') = fft_filter (aoAlg w) /\
    mirror w' = mirror w /\ frames w' = frames w.
Proof.
  eexists. split.
  - unfold set_roi, bind, modify, call_aoAlg.
    rewrite make_mask_ok by lia. cbn. reflexivity.
  - cbn. repeat split.
Qed.

Lemma set_roi_effect_witness :
  exists w', set_roi 1 1 1 one_actuator_world = (Ok tt, w') /\
    roi (dev w') = Some (1, 1, 1) /\
    dev_mask (dev w') = Some (disk 1) /\
    mask (aoAlg w') = Some (disk 1) /\
    dev_fft_filter (dev w') = None /\
    dev_controlMatrix (dev w') = dev_controlMatrix (dev one_actuator_world) /\
    controlMatrix (aoAlg w') = controlMatrix (aoAlg one_actuator_world) /\
    fft_filter (aoAlg w') = fft_filter (aoAlg one_actuator_world) /\
    mirror w' = mirror one_actuator_world /\ frames w' = frames one_actuator_world.
Proof. apply (set_roi_effect one_actuator_world 1 1 1). lia. Defined.

(** ** ac_pos_from_zernike *)

Lemma slice_bound_in n i : 0 <= i <= n -> slice_bound n i = i.
Proof.
  intros H. unfold slice_bound. cbv zeta.
  destruct (Z.ltb_spec i 0) as [Hneg|_]; [lia|].
  destruct (Z.ltb_spec i 0) as [Hneg|_]; [lia|].
  destruct (Z.ltb_spec n i); lia.
Qed.

Lemma py_slice_prefix {A} (l : list A) n :
  0 <= n <= zlength l -> py_slice l 0 n = firstn (Z.to_nat n) l.
Proof.
  intros H. unfold py_slice, slice_len.
  rewrite !slice_bound_in by lia.
  simpl. f_equal. lia.
Qed.

Lemma zlength_firstn {A} (l : list A) n :
  0 <= n <= zlength l -> zlength (firstn (Z.to_nat n) l) = n.
Proof. unfold zlength. intros H. rewrite length_firstn. lia. Qed.

Section CommandMapper.
Context {lib : Numerics}.

(** C1, on the code: with a control matrix of [modes] columns held, a vector
    of at least [modes] entries is cut to its first [modes] entries and
    multiplied; a shorter vector is not padded: [np.pad] is given the
    negative width and raises [ValueError], the state staying as it was. *)
Theorem ac_pos_from_zernike_spec (s : AdaptiveOpticsFunctions) (cm : array2)
    (v : vec) (n : Z) (Hcm : controlMatrix s = Some cm) :
  (zlength v < snd (shape2 cm) ->
   ac_pos_from_zernike v n s = (Raise ValueError, s)) /\
  (snd (shape2 cm) <= zlength v ->
   ac_pos_from_zernike v n s =
   (if zlength cm =? n
    then Ok (map (fun row => np_inner row (firstn (Z.to_nat (snd (shape2 cm))) v)) cm)
    else Raise (Exception ""), s)).
Proof.
  assert (H0 : 0 <= snd (shape2 cm)).
  { unfold shape2, zlength. destruct cm; simpl; lia. }
  split; intros H; unfold ac_pos_from_zernike, bind, get; rewrite Hcm.
  - destruct (Z.ltb_spec (zlength v) (snd (shape2 cm))) as [_|Hge]; [|lia].
    unfold lift, np_pad.
    destruct (Z.ltb_spec (zlength v - snd (shape2 cm)) 0) as [_|Hge]; [|lia].
    reflexivity.
  - destruct (Z.ltb_spec (zlength v) (snd (shape2 cm))) as [Hlt|_]; [lia|].
    destruct (Z.ltb_spec (snd (shape2 cm)) (zlength v)).
    + unfold ret, lift, np_dot. rewrite py_slice_prefix by lia.
      rewrite zlength_firstn by lia. rewrite Z.eqb_refl.
      rewrite zlength_map. unfold array2, vec in *.
      destruct (zlength cm =? n); reflexivity.
    + assert (E : snd (shape2 cm) = zlength v) by lia.
      unfold ret, lift, np_dot. rewrite E, Z.eqb_refl.
      rewrite zlength_map.
      replace (firstn (Z.to_nat (zlength v)) v) with v
        by (symmetry; apply firstn_all2; unfold zlength; lia).
      unfold array2, vec in *.
      destruct (zlength cm =? n); reflexivity.
Qed.

End CommandMapper.

(** C1 at a short vector: one actuator, two modes, one entry given. *)
Lemma ac_pos_from_zernike_spec_witness :
  ac_pos_from_zernike (lib := sim) [3%float] 1
    (mkAlg None None (Some [[1%float; 2%float]]) None) =
  (Raise ValueError, mkAlg None None (Some [[1%float; 2%float]]) None).
Proof.
  apply (ac_pos_from_zernike_spec (lib := sim)
           (mkAlg None None (Some [[1%float; 2%float]]) None)
           [[1%float; 2%float]] [3%float] 1 eq_refl).
  vm_compute. reflexivity.
Defined.

(** ** make_fft_filter *)

Section FourierFilter.
Context {lib : Numerics}.
Variable py : dialect.

Lemma with_traceback_error_not_stripes :
  with_traceback_error py <> Exception stripes_message.
Proof. unfold with_traceback_error. destruct py; discriminate. Qed.

Lemma with_traceback_error_not_ValueError :
  with_traceback_error py <> ValueError.
Proof. unfold with_traceback_error. destruct py; discriminate. Qed.

Lemma refine_peak_off_edge fftarray rounds mp :
  window_fits fftarray mp = false ->
  refine_peak py fftarray (S rounds) mp = Raise (with_traceback_error py).
Proof. intros H. destruct mp as [mx my]. cbn -[window_fits]. now rewrite H. Qed.

Lemma refine_peak_errors fftarray rounds mp e :
  refine_peak py fftarray rounds mp = Raise e ->
  e = ValueError \/ e = with_traceback_error py.
Proof.
  revert mp. induction rounds as [|rounds IH]; intros [mx my]; cbn -[window_fits].
  - discriminate.
  - destruct (window_fits fftarray (mx, my)).
    + destruct (window_centroid _) as [[c0 c1]|].
      * apply IH.
      * intros H. inversion H. now left.
    + intros H. inversion H. now right.
Qed.

Lemma locate_max_errors fftarray e :
  locate_max fftarray = Raise e -> e = ValueError.
Proof.
  unfold locate_max. destruct (shape2 fftarray) as [s0 s1].
  destruct ((s0 =? 0) || (s1 =? 0)); intros H; now inversion H.
Qed.

Lemma find_first_order_point_errors image region e :
  find_first_order_point py image region = Raise e ->
  e = ValueError \/ e = with_traceback_error py \/
  windowed_spectrum image = Raise e.
Proof.
  unfold find_first_order_point.
  destruct (windowed_spectrum image) as [fftarray|e0]; cbn [rbind].
  2:{ intros H. inversion H. now right; right. }
  destruct (shape2 fftarray) as [s0 s1].
  destruct (locate_max (fill2 _ _ _ _ _ _)) as [[t0 t1]|e1] eqn:E1; cbn [rbind].
  2:{ intros H. inversion H. subst. left. eapply locate_max_errors; eauto. }
  destruct (_ <? _).
  - destruct (locate_max (fftshift _)) as [tp|e2] eqn:E2; cbn [rbind].
    2:{ intros H. inversion H. subst. left. eapply locate_max_errors; eauto. }
    destruct (refine_peak _ _ _ _) as [mp|e3] eqn:E3; cbn [rbind].
    + discriminate.
    + intros H. inversion H. subst.
      destruct (refine_peak_errors _ _ _ _ E3); auto.
  - destruct (refine_peak _ _ _ _) as [mp|e3] eqn:E3; cbn [rbind].
    + discriminate.
    + intros H. inversion H. subst.
      destruct (refine_peak_errors _ _ _ _ E3); auto.
Qed.

Lemma paste2_errors {A} (a : list (list A)) y0 y1 x0 x1 v d0 d1 e :
  paste2 a y0 y1 x0 x1 v d0 d1 = Raise e -> e = ValueError.
Proof.
  unfold paste2. destruct (shape2 a) as [s0 s1].
  destruct (_ && _); intros H; now inversion H.
Qed.

Lemma make_fft_filter_early_error image region s e :
  find_first_order_point py image region = Raise e ->
  make_fft_filter py image region s = (Raise e, s).
Proof. intros H. unfold make_fft_filter, bind, lift. now rewrite H. Qed.

Lemma make_fft_filter_errors image region s e s' :
  make_fft_filter py image region s = (Raise e, s') ->
  (find_first_order_point py image region = Raise e /\ s' = s) \/
  e = ValueError.
Proof.
  unfold make_fft_filter, bind, lift.
  destruct (find_first_order_point py image region)
    as [[[fftarray [mx my]] shift]|e0] eqn:E.
  2:{ intros H. inversion H. now left. }
  destruct (shape2 fftarray) as [s0 s1]. unfold modify, ret.
  destruct (paste2 _ _ _ _ _ _ _ _) as [f|e1] eqn:E1.
  - discriminate.
  - intros H. inversion H. subst. right. eapply paste2_errors; eauto.
Qed.

(** C8: an error raised while the first order point is sought, the
    peak-refinement error of line 160 among them, leaves the object as it
    was: line 169, the first assignment to the filter, is not reached; and
    whenever the call ends in the error of line 160 the state is the one the
    call started in. *)
Theorem make_fft_filter_error_keeps_filter (image : array2) (region : option Z)
    (s : AdaptiveOpticsFunctions) :
  (forall e, find_first_order_point py image region = Raise e ->
     make_fft_filter py image region s = (Raise e, s)) /\
  (forall s', make_fft_filter py image region s
                = (Raise (with_traceback_error py), s') ->
     s' = s /\ fft_filter s' = fft_filter s).
Proof.
  split.
  - intros e. apply make_fft_filter_early_error.
  - intros s' H. apply make_fft_filter_errors in H.
    destruct H as [[_ ->]|H]; [now split|].
    now apply with_traceback_error_not_ValueError in H.
Qed.

(** C4, on the code: the exception carrying the message about the stripes is
    built on line 160 and never raised.  When the 50 by 50 window does not
    fit, the round of refinement ends in the error of the call
    [with_traceback()] itself, a [TypeError] (an [AttributeError] under
    Python 2), and, the library raising no plain [Exception], no call of
    [make_fft_filter] ends in the message. *)
Theorem make_fft_filter_stripes_message_lost (image : array2)
    (region : option Z) (s : AdaptiveOpticsFunctions)
    (Hlib : forall m, windowed_spectrum image <> Raise (Exception m)) :
  fst (make_fft_filter py image region s) <> Raise (Exception stripes_message) /\
  (forall fftarray mp rounds,
     window_fits fftarray mp = false ->
     refine_peak py fftarray (S rounds) mp = Raise (with_traceback_error py)) /\
  with_traceback_error py <> Exception stripes_message.
Proof.
  split; [|split].
  - destruct (make_fft_filter py image region s) as [r s'] eqn:E. simpl.
    intros ->. apply make_fft_filter_errors in E.
    destruct E as [[E _]|E]; [|discriminate].
    apply find_first_order_point_errors in E.
    destruct E as [E|[E|E]].
    + discriminate.
    + symmetry in E. now apply with_traceback_error_not_stripes in E.
    + now apply Hlib in E.
  - intros fftarray mp rounds. apply refine_peak_off_edge.
  - apply with_traceback_error_not_stripes.
Qed.

End FourierFilter.

(** A 64 by 64 spectrum whose first order lies at column 4 of the centre
    row: after the shift of line 142 the peak is on row 0, the rows
    [-25:25] of the window are empty, and the handler of line 160 fails. *)
Lemma make_fft_filter_error_keeps_filter_witness :
  make_fft_filter (lib := sim) Python3 (peak_image 64 32 4) None alg_init
  = (Raise TypeError, alg_init).
Proof.
  apply (make_fft_filter_error_keeps_filter (lib := sim) Python3
           (peak_image 64 32 4) None alg_init).
  vm_compute. reflexivity.
Defined.

Lemma make_fft_filter_stripes_message_lost_witness :
  fst (make_fft_filter (lib := sim) Python3 (peak_image 64 32 4) None alg_init)
    <> Raise (Exception stripes_message) /\
  refine_peak (lib := sim) Python3
    (fftshift (map (map (fun v => (v, 0%float))) (peak_image 64 32 4)))
    10 (36, 0) = Raise TypeError.
Proof.
  pose proof (make_fft_filter_stripes_message_lost (lib := sim) Python3
                (peak_image 64 32 4) None alg_init) as H.
  destruct H as [H1 [H2 _]].
  - intros m. vm_compute. discriminate.
  - split; [exact H1|]. apply H2. vm_compute. reflexivity.
Defined.

(** ** measure_fourier_metric *)

Lemma length_set_nth {A} (l : list A) i x : length (set_nth l i x) = length l.
Proof.
  revert i. induction l as [|h t IH]; intros [|i]; simpl; auto.
Qed.

Lemma nth_error_set_nth_other {A} (l : list A) i x k :
  k <> i -> nth_error (set_nth l i x) k = nth_error l k.
Proof.
  revert i k. induction l as [|h t IH]; intros [|i] [|k] H; simpl;
    try reflexivity; try congruence.
  apply IH. congruence.
Qed.

Lemma zlength_set_nth {A} (l : list A) i x : zlength (set_nth l i x) = zlength l.
Proof. unfold zlength. now rewrite length_set_nth. Qed.

Lemma np_linspace_length start stop num radii :
  np_linspace start stop num = Ok radii -> zlength radii = Z.max 0 num.
Proof.
  unfold np_linspace. destruct (num <? 0); [discriminate|].
  intros H. injection H as <-.
  destruct (1 <? num); [destruct (PrimFloat.eqb _ _)|];
    rewrite ?zlength_set_nth, !zlength_map, arange_length; lia.
Qed.

Section FourierMetric.
Context {lib : Numerics}.
Variable py : dialect.

Lemma ring_metrics_length size sq radii rings ms :
  ring_metrics size sq radii rings = Ok ms -> length ms = length rings.
Proof.
  revert ms. induction rings as [|ii rest IH]; simpl; intros ms H.
  - now inversion H.
  - destruct (ring_metric size sq radii ii) as [m|e]; [|discriminate].
    cbn [rbind] in H.
    destruct (ring_metrics size sq radii rest) as [ms'|e]; [|discriminate].
    cbn [rbind] in H. inversion H. simpl. f_equal. now apply IH.
Qed.

(** C5, on the code: for a ring count n > 0 the boundaries [radii] delimit n
    rings (n + 1 radii from 10% to 100% of the cutoff), but the loop of line
    370 runs over [range(0, n - 1)]: n - 1 ring values are computed, those of
    rings 0 to n - 2, and the line is fitted to these n - 1 values. *)
Theorem RMS_metrics_one_ring_short (image : array2) (num_segs : Z)
    (wavelength NA pixel_size : float) (ms : vec)
    (Hn : 0 < num_segs)
    (Hrun : RMS_metrics py image num_segs wavelength NA pixel_size = Ok ms) :
  zlength ms = num_segs - 1 /\
  exists fftarray_sq radii,
    power_spectrum image = Ok fftarray_sq /\
    np_linspace
      (PrimFloat.mul 0.1 (OTF_outer_rad py (fst (shape2 image)) wavelength NA pixel_size))
      (OTF_outer_rad py (fst (shape2 image)) wavelength NA pixel_size)
      (num_segs + 1) = Ok radii /\
    zlength radii = num_segs + 1 /\
    ring_metrics (shape2 image) fftarray_sq radii (arange 0 (num_segs - 1)) = Ok ms.
Proof.
  unfold RMS_metrics in Hrun.
  destruct (power_spectrum image) as [sq|e]; [|discriminate].
  cbn [rbind] in Hrun.
  destruct (np_linspace _ _ _) as [radii|e] eqn:El; [|discriminate].
  cbn [rbind] in Hrun. split.
  - apply ring_metrics_length in Hrun. unfold zlength. rewrite Hrun.
    fold (zlength (arange 0 (num_segs - 1))). rewrite arange_length. lia.
  - exists sq, radii. repeat split; auto.
    apply np_linspace_length in El. lia.
Qed.

End FourierMetric.

(** Two rings asked for on a 2 by 2 image: one ring value. *)
Lemma RMS_metrics_one_ring_short_witness :
  exists ms,
    RMS_metrics (lib := sim) Python3 [[1%float; 1%float]; [1%float; 1%float]] 2
      default_wavelength default_NA default_pixel_size = Ok ms /\
    zlength ms = 2 - 1.
Proof.
  eexists. split.
  - vm_compute. reflexivity.
  - eapply (RMS_metrics_one_ring_short (lib := sim) Python3
              [[1%float; 1%float]; [1%float; 1%float]] 2
              default_wavelength default_NA default_pixel_size).
    + lia.
    + vm_compute. reflexivity.
Defined.

(** ** get_zernike_modes_sensorless *)

Lemma py_index_range n i k : py_index n i = Some k -> 0 <= k < n.
Proof.
  unfold py_index.
  destruct (Z.leb_spec 0 i), (Z.ltb_spec i n); simpl;
    try (intros E; inversion E; lia);
    destruct (Z.leb_spec (- n) i), (Z.ltb_spec i 0); simpl;
    intros E; inversion E; lia.
Qed.

Lemma zth_np_zeros n k : 0 <= k < n -> zth (np_zeros n) k = Some 0%float.
Proof.
  intros H. unfold zth, np_zeros. destruct (Z.ltb_spec k 0) as [Hk|_]; [lia|].
  rewrite nth_error_repeat; [reflexivity|lia].
Qed.

Section Sensorless.
Context {lib : Numerics}.
Variable py : dialect.

Lemma sensorless_loop_frame stack applied noll segs numMes todo coef0 coef :
  sensorless_loop py stack applied noll segs numMes todo coef0 = Ok coef ->
  length coef = length coef0 /\
  forall k,
    (forall ii n, In ii todo -> zth noll ii = Some n ->
       py_index (snd (shape2 applied)) (n - 1) <> Some (Z.of_nat k)) ->
    nth_error coef k = nth_error coef0 k.
Proof.
  revert coef0. induction todo as [|ii rest IH]; intros coef0; simpl.
  - intros H. inversion H. auto.
  - destruct py; [|discriminate].
    destruct (zth noll ii) as [n|] eqn:En; [|discriminate].
    destruct (py_index _ _) as [col|] eqn:Ec; [|discriminate].
    destruct (find_zernike_amp_sensorless _ _ _ _) as [amp|e]; [|discriminate].
    cbn [rbind]. intros H. apply IH in H. destruct H as [Hlen Hk].
    split.
    + now rewrite Hlen, length_set_nth.
    + intros k Hsel. rewrite Hk by (intros; eapply Hsel; eauto).
      apply nth_error_set_nth_other. intros ->.
      apply (Hsel ii n); auto. rewrite Ec. f_equal.
      apply py_index_range in Ec. lia.
Qed.

(** C9: a coefficient vector that [get_zernike_modes_sensorless] returns has
    as many entries as the applied-amplitude table has columns, and is zero
    at every index that is not the index [nollZernike[i] - 1] (as numpy reads
    it) of a selected mode. *)
Theorem get_zernike_modes_sensorless_frame (full_image_stack : list array2)
    (full_zernike_applied : array2) (nollZernike : list Z) (num_segs : Z)
    (coef : vec)
    (Hrun : get_zernike_modes_sensorless py full_image_stack
              full_zernike_applied nollZernike num_segs = Ok coef) :
  zlength coef = snd (shape2 full_zernike_applied) /\
  forall k, 0 <= k < snd (shape2 full_zernike_applied) ->
    (forall i n, zth nollZernike i = Some n ->
       py_index (snd (shape2 full_zernike_applied)) (n - 1) <> Some k) ->
    zth coef k = Some 0%float.
Proof.
  unfold get_zernike_modes_sensorless in Hrun.
  destruct (zlength nollZernike =? 0); [discriminate|].
  apply sensorless_loop_frame in Hrun. destruct Hrun as [Hlen Hk].
  assert (H0 : 0 <= snd (shape2 full_zernike_applied)).
  { unfold shape2, zlength. destruct full_zernike_applied; simpl; lia. }
  split.
  - unfold zlength. rewrite Hlen. unfold np_zeros. rewrite repeat_length. lia.
  - intros k Hrange Hsel. rewrite <- (zth_np_zeros _ k Hrange).
    unfold zth. destruct (Z.ltb_spec k 0); [lia|].
    apply Hk. intros ii n _ Hn. rewrite Z2Nat.id by lia. now apply (Hsel ii).
Qed.

End Sensorless.

(** Two measurements of Noll mode 2 on a table of two columns: entry 0 of
    the result stays zero. *)
Lemma get_zernike_modes_sensorless_frame_witness :
  exists coef,
    get_zernike_modes_sensorless (lib := sim) Python2
      [[[1%float; 1%float]; [1%float; 1%float]];
       [[1%float; 1%float]; [1%float; 1%float]]]
      [[0%float; 0.5%float]; [0%float; 1%float]] [2] 2 = Ok coef /\
    zlength coef = 2 /\ zth coef 0 = Some 0%float.
Proof.
  eexists. split.
  - vm_compute. reflexivity.
  - pose proof (get_zernike_modes_sensorless_frame (lib := sim) Python2
        [[[1%float; 1%float]; [1%float; 1%float]];
         [[1%float; 1%float]; [1%float; 1%float]]]
        [[0%float; 0.5%float]; [0%float; 1%float]] [2] 2) as H.
    specialize (H _ ltac:(vm_compute; reflexivity)).
    destruct H as [H1 H2]. split; [exact H1|].
    apply H2; [cbn; lia|].
    intros i n Hi. unfold zth in Hi. destruct (i <? 0); [discriminate|].
    destruct (Z.to_nat i) as [|[|k]]; simpl in Hi; try discriminate.
    injection Hi as <-. vm_compute. discriminate.
Defined.

(** ** create_control_matrix *)

Lemma map_seq_from a m n :
  map (fun k => a + Z.of_nat k) (seq n m) =
  map (fun k => a + Z.of_nat n + Z.of_nat k) (seq 0 m).
Proof.
  revert n. induction m as [|m IH]; intros n; simpl; [reflexivity|].
  f_equal; [lia|]. rewrite IH, <- seq_shift, map_map.
  apply map_ext. intros k. lia.
Qed.

Lemma arange_app a c b :
  a <= c <= b -> arange a b = arange a c ++ arange c b.
Proof.
  intros H. unfold arange.
  replace (Z.to_nat (b - a)) with (Z.to_nat (c - a) + Z.to_nat (b - c))%nat by lia.
  rewrite seq_app, map_app. f_equal. simpl. rewrite map_seq_from.
  apply map_ext. intros k. lia.
Qed.

Lemma arange_cons a b : a < b -> arange a b = a :: arange (a + 1) b.
Proof.
  intros H. rewrite (arange_app a (a + 1) b) by lia.
  unfold arange at 1. replace (Z.to_nat (a + 1 - a)) with 1%nat by lia.
  simpl. f_equal. lia.
Qed.

Lemma arange_split a b c :
  a <= c < b -> arange a b = arange a c ++ c :: arange (c + 1) b.
Proof.
  intros H. rewrite (arange_app a c b) by lia. now rewrite (arange_cons c b) by lia.
Qed.

Lemma in_arange a b k : In k (arange a b) <-> a <= k < b.
Proof.
  unfold arange. rewrite in_map_iff. split.
  - intros [n [<- Hn]]. apply in_seq in Hn. lia.
  - intros H. exists (Z.to_nat (k - a)). split; [lia|]. apply in_seq. lia.
Qed.

Lemma length_map2 {A B C} (f : A -> B -> C) l m :
  length l = length m -> length (map2 f l m) = length l.
Proof.
  revert m. induction l as [|x l IH]; intros [|y m] H; simpl in *;
    try discriminate; try reflexivity.
  f_equal. apply IH. congruence.
Qed.

Lemma length_mapi_from {A B} (f : Z -> A -> B) i l :
  length (mapi_from f i l) = length l.
Proof. revert i. induction l as [|x l IH]; intros i; simpl; auto. Qed.

Lemma column_set_column c ii col k :
  length col = length c -> 0 <= ii -> Z.to_nat ii <> k ->
  column (set_column c ii col) k = column c k.
Proof.
  unfold column, set_column. intros Hlen Hii Hk.
  revert col Hlen. induction c as [|row c IH]; intros [|v col] Hlen;
    simpl in *; try discriminate; auto.
  f_equal.
  - apply nth_error_set_nth_other. congruence.
  - apply IH. congruence.
Qed.

Section Calibration.
Context {lib : Numerics}.

Lemma actuator_loop_app s stack x y nz pokes pupil cal l1 l2 :
  actuator_loop s stack x y nz pokes pupil cal (l1 ++ l2) =
  rbind (actuator_loop s stack x y nz pokes pupil cal l1)
        (fun cal' => actuator_loop s stack x y nz pokes pupil cal' l2).
Proof.
  revert cal. induction l1 as [|ii l1 IH]; intros cal; simpl; [reflexivity|].
  destruct (actuator_step s stack x y nz pokes pupil cal ii); simpl; auto.
Qed.

Lemma length_fit_slopes samples slopes0 :
  length (fit_slopes samples slopes0) = length slopes0.
Proof. unfold fit_slopes, mapi. apply length_mapi_from. Qed.

Lemma actuator_step_lengths s stack x y nz pokes pupil cal ii cal' :
  length (slopes cal) = length (C_mat cal) ->
  actuator_step s stack x y nz pokes pupil cal ii = Ok cal' ->
  length (slopes cal') = length (C_mat cal').
Proof.
  intros Hlen Hstep. unfold actuator_step in Hstep.
  destruct (zth pupil ii) as [inc|]; [|discriminate].
  destruct (PrimFloat.eqb inc 1).
  - destruct (poke_samples _ _ _ _ _ _ _ _) as [samples|e]; [|discriminate].
    cbn [rbind] in Hstep. destruct (zlength samples <? 2); [discriminate|].
    injection Hstep as <-. cbn [C_mat slopes].
    unfold set_column. rewrite length_map2, length_fit_slopes; auto.
    now rewrite length_fit_slopes.
  - now injection Hstep as <-.
Qed.

Lemma actuator_loop_lengths s stack x y nz pokes pupil l cal cal' :
  length (slopes cal) = length (C_mat cal) ->
  actuator_loop s stack x y nz pokes pupil cal l = Ok cal' ->
  length (slopes cal') = length (C_mat cal').
Proof.
  revert cal. induction l as [|ii l IH]; intros cal Hlen Hloop; simpl in Hloop.
  - now injection Hloop as <-.
  - destruct (actuator_step s stack x y nz pokes pupil cal ii) as [cal1|e] eqn:E;
      [|discriminate].
    cbn [rbind] in Hloop. eapply IH; [|exact Hloop].
    eapply actuator_step_lengths; eauto.
Qed.

(** A step for actuator [ii] writes column [ii] only. *)
Lemma actuator_step_columns s stack x y nz pokes pupil cal ii cal' k :
  length (slopes cal) = length (C_mat cal) ->
  actuator_step s stack x y nz pokes pupil cal ii = Ok cal' ->
  0 <= ii -> Z.to_nat ii <> k ->
  column (C_mat cal') k = column (C_mat cal) k.
Proof.
  intros Hlen Hstep Hii Hk. unfold actuator_step in Hstep.
  destruct (zth pupil ii) as [inc|]; [|discriminate].
  destruct (PrimFloat.eqb inc 1).
  - destruct (poke_samples _ _ _ _ _ _ _ _) as [samples|e]; [|discriminate].
    cbn [rbind] in Hstep. destruct (zlength samples <? 2); [discriminate|].
    injection Hstep as <-. cbn [C_mat slopes].
    apply column_set_column; auto. now rewrite length_fit_slopes.
  - now injection Hstep as <-.
Qed.

Lemma actuator_loop_columns s stack x y nz pokes pupil l cal cal' k :
  length (slopes cal) = length (C_mat cal) ->
  actuator_loop s stack x y nz pokes pupil cal l = Ok cal' ->
  (forall j, In j l -> 0 <= j /\ Z.to_nat j <> k) ->
  column (C_mat cal') k = column (C_mat cal) k.
Proof.
  revert cal. induction l as [|ii l IH]; intros cal Hlen Hloop Hl; simpl in Hloop.
  - now injection Hloop as <-.
  - destruct (actuator_step s stack x y nz pokes pupil cal ii) as [cal1|e] eqn:E;
      [|discriminate].
    cbn [rbind] in Hloop.
    destruct (Hl ii (or_introl eq_refl)) as [Hii Hk].
    rewrite (IH cal1); [| |exact Hloop|].
    + eapply actuator_step_columns; eauto.
    + eapply actuator_step_lengths; eauto.
    + intros j Hj. apply Hl. now right.
Qed.

Lemma calibration_start_lengths stack na nz pupil_ac pupil x y cal0 :
  calibration_start stack na nz pupil_ac = Ok (pupil, x, y, cal0) ->
  length (slopes cal0) = length (C_mat cal0).
Proof.
  unfold calibration_start.
  destruct (match pupil_ac with None => na <? 0 | Some _ => false end); [discriminate|].
  destruct ((nz <? 0) || (na <? 0)); [discriminate|].
  destruct (match stack with [] => (0, 0) | image :: _ => shape2 image end) as [x' y'].
  destruct (x' =? y'); [|discriminate].
  intros H. injection H as _ _ _ <-. cbn [slopes C_mat].
  unfold np_zeros2, np_zeros. now rewrite !repeat_length.
Qed.

(** The actuators before [ii] go through when each of them is either left
    out or has at least two samples kept. *)
Lemma actuator_loop_prefix s stack x y nz pokes pupil ii :
  (forall k, 0 <= k < ii ->
     exists inc, zth pupil k = Some inc /\
       (PrimFloat.eqb inc 1 = true ->
        exists sk,
          poke_samples s stack x y nz (zlength pokes) k
            (combine (arange 0 (zlength pokes)) pokes) = Ok sk /\
          2 <= zlength sk)) ->
  forall l cal, (forall k, In k l -> 0 <= k < ii) ->
  exists cal', actuator_loop s stack x y nz pokes pupil cal l = Ok cal'.
Proof.
  intros Hgood l. induction l as [|k l IH]; intros cal Hl; simpl.
  - now exists cal.
  - destruct (Hgood k (Hl k (or_introl eq_refl))) as [inc [Hinc Hs]].
    unfold actuator_step. rewrite Hinc.
    destruct (PrimFloat.eqb inc 1).
    + destruct (Hs eq_refl) as [sk [-> Hlen]]. cbn [rbind].
      destruct (Z.ltb_spec (zlength sk) 2); [lia|]. cbn [rbind].
      apply IH. intros j Hj. apply Hl. now right.
    + cbn [rbind]. apply IH. intros j Hj. apply Hl. now right.
Qed.

(** C3: when actuator [ii] is included and fewer than two of its poke
    samples are kept, every earlier actuator being left out or having two
    samples or more, [create_control_matrix] raises the exception whose
    message names actuator [ii + 1] (the message counts from 1); the object
    is exactly as it was, so no control matrix is stored, and none is
    returned.  The actuators before [ii] were all processed by then, and the
    column that each of them wrote is the one it held when its own turn
    ended. *)
Theorem create_control_matrix_too_few_samples
    (s : AdaptiveOpticsFunctions) (imageStack : list array2)
    (numActuators noZernikeModes : Z) (pokeSteps : vec)
    (pupil_ac : option vec) (threshold : float)
    (pupil : vec) (x y : Z) (cal0 : calibration) (ii : Z)
    (inc : float) (samples : list (float * vec))
    (Hstart : calibration_start imageStack numActuators noZernikeModes pupil_ac
              = Ok (pupil, x, y, cal0))
    (Hii : 0 <= ii < numActuators)
    (Hbefore : forall k, 0 <= k < ii ->
       exists inc, zth pupil k = Some inc /\
         (PrimFloat.eqb inc 1 = true ->
          exists sk,
            poke_samples s imageStack x y noZernikeModes (zlength pokeSteps) k
              (combine (arange 0 (zlength pokeSteps)) pokeSteps) = Ok sk /\
            2 <= zlength sk))
    (Hinc : zth pupil ii = Some inc)
    (Hin : PrimFloat.eqb inc 1 = true)
    (Hsamples : poke_samples s imageStack x y noZernikeModes (zlength pokeSteps) ii
                  (combine (arange 0 (zlength pokeSteps)) pokeSteps) = Ok samples)
    (Hfew : zlength samples < 2) :
  create_control_matrix imageStack numActuators noZernikeModes pokeSteps
    pupil_ac threshold s
  = (Raise (Exception (slope_message (ii + 1))), s) /\
  exists cal,
    actuator_loop s imageStack x y noZernikeModes pokeSteps pupil cal0
      (arange 0 ii) = Ok cal /\
    forall k calk, 0 <= k < ii ->
      actuator_loop s imageStack x y noZernikeModes pokeSteps pupil cal0
        (arange 0 (k + 1)) = Ok calk ->
      column (C_mat cal) (Z.to_nat k) = column (C_mat calk) (Z.to_nat k).
Proof.
  destruct (actuator_loop_prefix s imageStack x y noZernikeModes pokeSteps pupil
              ii Hbefore (arange 0 ii) cal0) as [cal Hcal].
  { intros k Hk. apply in_arange in Hk. lia. }
  split; [|exists cal; split; [exact Hcal|]].
  - unfold create_control_matrix, bind, get, lift. rewrite Hstart.
    rewrite (arange_split 0 numActuators ii) by lia.
    rewrite actuator_loop_app, Hcal. cbn [rbind actuator_loop].
    unfold actuator_step. rewrite Hinc, Hin, Hsamples. cbn [rbind].
    destruct (Z.ltb_spec (zlength samples) 2); [|lia]. reflexivity.
  - intros k calk Hk Hcalk.
    rewrite (arange_split 0 ii k) in Hcal by lia.
    replace (arange 0 k ++ k :: arange (k + 1) ii)
      with ((arange 0 k ++ [k]) ++ arange (k + 1) ii) in Hcal
      by (rewrite <- app_assoc; reflexivity).
    rewrite <- arange_snoc in Hcal by lia.
    rewrite actuator_loop_app, Hcalk in Hcal. cbn [rbind] in Hcal.
    eapply actuator_loop_columns; [|exact Hcal|].
    + eapply actuator_loop_lengths; [|exact Hcalk].
      eapply calibration_start_lengths; eauto.
    + intros j Hj. apply in_arange in Hj. lia.
Qed.

End Calibration.

(** Two actuators, two poke steps each; the third frame, the first of
    actuator 1, is torn: the call fails on "actuator 2". *)
Lemma create_control_matrix_too_few_samples_witness :
  create_control_matrix (lib := sim)
    [[[0%float; 0%float]; [0%float; 0%float]];
     [[0%float; 0%float]; [0%float; 0%float]];
     [[1%float; 1%float]; [1%float; 1%float]];
     [[0%float; 0%float]; [0%float; 0%float]]]
    2 1 [0.25%float; 0.75%float] None 0.005%float alg_init
  = (Raise (Exception
       "Not enough Zernike mode values to calculate slope for actuator 2. Control matrix calculation will fail"),
     alg_init).
Proof.
  edestruct (create_control_matrix_too_few_samples (lib := sim) alg_init
    [[[0%float; 0%float]; [0%float; 0%float]];
     [[0%float; 0%float]; [0%float; 0%float]];
     [[1%float; 1%float]; [1%float; 1%float]];
     [[0%float; 0%float]; [0%float; 0%float]]]
    2 1 [0.25%float; 0.75%float] None 0.005%float) with (ii := 1) as [H _].
  - vm_compute. reflexivity.
  - lia.
  - intros k Hk. assert (k = 0) as -> by lia.
    eexists. split; [vm_compute; reflexivity|].
    intros _. eexists. split; [vm_compute; reflexivity|].
    vm_compute. discriminate.
  - vm_compute. reflexivity.
  - vm_compute. reflexivity.
  - vm_compute. reflexivity.
  - vm_compute. reflexivity.
  - exact H.
Defined.

(** ** The order of binary64, from the specification of the primitives *)

Ltac sf_cases :=
  repeat match goal with
         | s : bool |- _ => destruct s
         end;
  cbn; try discriminate; try reflexivity; try (intros; discriminate).

Ltac cmp_cases :=
  change (Pos.compare_cont Eq) with Pos.compare in *;
  repeat match goal with
         | |- context [Z.compare ?a ?b] => destruct (Z.compare_spec a b)
         | |- context [Pos.compare ?a ?b] => destruct (Pos.compare_spec a b)
         end;
  subst; cbn; try discriminate; try reflexivity; try lia;
  intros; try discriminate; try lia.

Lemma SFltb_SFleb_trans x y z :
  SFltb x y = true -> SFleb y z = true -> SFltb x z = true.
Proof.
  unfold SFltb, SFleb.
  destruct x as [sx|sx| |sx mx ex], y as [sy|sy| |sy my ey],
           z as [sz|sz| |sz mz ez]; sf_cases; cmp_cases.
Qed.

Lemma SFleb_trans x y z :
  SFleb x y = true -> SFleb y z = true -> SFleb x z = true.
Proof.
  unfold SFleb.
  destruct x as [sx|sx| |sx mx ex], y as [sy|sy| |sy my ey],
           z as [sz|sz| |sz mz ez]; sf_cases; cmp_cases.
Qed.

Lemma SFcompare_antisym x y :
  SFcompare y x = option_map CompOpp (SFcompare x y).
Proof.
  destruct x as [sx|sx| |sx mx ex], y as [sy|sy| |sy my ey]; sf_cases;
    rewrite (Z.compare_antisym ex ey);
    change (Pos.compare_cont Eq) with Pos.compare;
    rewrite (Pos.compare_antisym mx my);
    destruct (ex ?= ey); cbn; try reflexivity;
    destruct (mx ?= my)%positive; reflexivity.
Qed.

(** Two floats that each compare with something compare with each other:
    neither is a NaN. *)
Lemma SFcompare_defined x y a b :
  SFcompare x a <> None -> SFcompare b y <> None -> SFcompare x y <> None.
Proof.
  destruct x as [sx|sx| |sx mx ex], y as [sy|sy| |sy my ey];
    cbn; try discriminate; intros H1 H2; try (now destruct a);
    destruct b as [sb|sb| |sb mb eb]; cbn in H2; congruence.
Qed.

Lemma ltb_leb_trans (x a b : float) :
  PrimFloat.ltb x a = true -> PrimFloat.leb a b = true ->
  PrimFloat.ltb x b = true.
Proof. rewrite !ltb_spec, leb_spec. apply SFltb_SFleb_trans. Qed.

Lemma leb_trans (a b c : float) :
  PrimFloat.leb a b = true -> PrimFloat.leb b c = true ->
  PrimFloat.leb a c = true.
Proof. rewrite !leb_spec. apply SFleb_trans. Qed.

(** [not (d < r)] is [r <= d] as soon as [d] and [r] are numbers. *)
Lemma ltb_false_iff_leb (d r lo hi : float) :
  PrimFloat.ltb d hi = true -> PrimFloat.leb lo r = true ->
  (PrimFloat.ltb d r = false <-> PrimFloat.leb r d = true).
Proof.
  rewrite !ltb_spec, !leb_spec. unfold SFltb, SFleb. intros Hd Hr.
  assert (Hdef : SFcompare (Prim2SF d) (Prim2SF r) <> None).
  { apply (SFcompare_defined _ _ (Prim2SF hi) (Prim2SF lo)).
    - destruct (SFcompare (Prim2SF d) (Prim2SF hi)); discriminate.
    - destruct (SFcompare (Prim2SF lo) (Prim2SF r)); discriminate. }
  rewrite (SFcompare_antisym (Prim2SF d) (Prim2SF r)).
  destruct (SFcompare (Prim2SF d) (Prim2SF r)) as [[| |]|]; cbn;
    split; congruence.
Qed.

Lemma leb_true_ltb_false (r d : float) :
  PrimFloat.leb r d = true -> PrimFloat.ltb d r = false.
Proof.
  rewrite ltb_spec, leb_spec. unfold SFltb, SFleb.
  rewrite (SFcompare_antisym (Prim2SF d) (Prim2SF r)).
  destruct (SFcompare (Prim2SF d) (Prim2SF r)) as [[| |]|]; cbn; congruence.
Qed.

Lemma SFltb_trans x y z :
  SFltb x y = true -> SFltb y z = true -> SFltb x z = true.
Proof.
  unfold SFltb.
  destruct x as [sx|sx| |sx mx ex], y as [sy|sy| |sy my ey],
           z as [sz|sz| |sz mz ez]; sf_cases; cmp_cases.
Qed.

Lemma ltb_trans (a b c : float) :
  PrimFloat.ltb a b = true -> PrimFloat.ltb b c = true ->
  PrimFloat.ltb a c = true.
Proof. rewrite !ltb_spec. apply SFltb_trans. Qed.

(** ** flatten_phase *)

Lemma clamp01_idem v : clamp01 (clamp01 v) = clamp01 v.
Proof.
  unfold clamp01. destruct (PrimFloat.ltb 1 v) eqn:E1.
  - reflexivity.
  - destruct (PrimFloat.ltb v 0) eqn:E2.
    + reflexivity.
    + now rewrite E1, E2.
Qed.

Lemma map_clamp01_idem v : map clamp01 (map clamp01 v) = map clamp01 v.
Proof. rewrite map_map. apply map_ext. intros a. apply clamp01_idem. Qed.

(** C2, as stated, fails.  One actuator, the control matrix [[1]], every
    measurement giving the mode amplitude 0.25 and the same RMS error: the
    round of the loop meets an RMS equal to the best one, and the vector
    kept, [0.5] until then, is overwritten by the new command [0.25], which
    is what [flatten_phase] sends last and returns. *)
Lemma flatten_phase_equal_rms_overwrites_best :
  (exists w',
     flatten_phase (lib := sim) (hw := sim_camera) Python3 1 (Some [1%float])
       one_actuator_world = (Ok [0.25%float], w') /\
     hd_error (mirror w') = Some [0.25%float]) /\
  PrimFloat.ltb 1 1 = false /\
  keep_best (mkBest [0.5%float] [0%float] 1%float) [0.25%float] [0.25%float] 1%float
  = mkBest [0.25%float] [0%float] 1%float /\
  [0.25%float] <> [0.5%float].
Proof.
  split; [|split; [|split]].
  - eexists. split; vm_compute; reflexivity.
  - reflexivity.
  - reflexivity.
  - intros H.
    apply (f_equal (fun l => match l with
                             | [v] => PrimFloat.eqb v 0.25
                             | _ => false
                             end)) in H.
    vm_compute in H. discriminate.
Qed.

Section Flatten.
Context {lib : Numerics} {hw : Hardware}.
Variable py : dialect.

Lemma send_ok values w :
  send values w =
  (Ok (map clamp01 values),
   mkWorld (aoAlg w) (dev w) (map clamp01 values :: mirror w) (frames w)).
Proof. reflexivity. Qed.

Lemma set_phase_ok z offset w flat w' :
  set_phase z offset w = (Ok flat, w') ->
  map clamp01 flat = flat /\ exists rest, mirror w' = flat :: rest.
Proof.
  unfold set_phase. intros H.
  apply bind_inv_ok in H. destruct H as [w0 [w1 [_ H]]].
  apply bind_inv_ok in H. destruct H as [p [w2 [_ H]]].
  apply bind_inv_ok in H. destruct H as [pos [w3 [_ H]]].
  rewrite send_ok in H. injection H as <- <-. split.
  - apply map_clamp01_idem.
  - now eexists.
Qed.

Lemma keep_best_clamped b flat z rms :
  clamped b -> map clamp01 flat = flat -> clamped (keep_best b flat z rms).
Proof.
  unfold clamped, keep_best. intros Hb Hf.
  destruct (PrimFloat.ltb rms _); [exact Hf|].
  destruct (PrimFloat.ltb _ rms); [exact Hb|exact Hf].
Qed.

Lemma flatten_step_ok nz ign b w b' w' :
  flatten_step py nz ign b w = (Ok b', w') ->
  exists flat z rms rest,
    mirror w' = flat :: rest /\ map clamp01 flat = flat /\
    b' = keep_best b flat z rms.
Proof.
  unfold flatten_step. intros H.
  apply bind_inv_ok in H. destruct H as [i [w1 [_ H]]].
  apply bind_inv_ok in H. destruct H as [u [w2 [_ H]]].
  apply bind_inv_ok in H. destruct H as [z0 [w3 [_ H]]].
  apply bind_inv_ok in H. destruct H as [z [w4 [_ H]]].
  apply bind_inv_ok in H. destruct H as [flat [w5 [Hset H]]].
  unfold ret in H. injection H as <- <-.
  apply set_phase_ok in Hset. destruct Hset as [Hc [rest Hm]].
  exists flat, z, (rms_of u), rest. auto.
Qed.

Lemma flatten_loop_clamped nz ign rounds b w b' w' :
  clamped b ->
  flatten_loop py nz ign rounds b w = (Ok b', w') -> clamped b'.
Proof.
  revert b w. induction rounds as [|rounds IH]; intros b w Hb H; simpl in H.
  - unfold ret in H. now injection H as <- _.
  - apply bind_inv_ok in H. destruct H as [b1 [w1 [Hstep H]]].
    apply flatten_step_ok in Hstep.
    destruct Hstep as [flat [z [rms [rest [_ [Hc ->]]]]]].
    eapply IH; [|exact H]. now apply keep_best_clamped.
Qed.

Lemma flatten_first_clamped nact nz w b0 w' :
  flatten_first py nact nz w = (Ok b0, w') -> clamped b0.
Proof.
  unfold flatten_first. intros H.
  apply bind_inv_ok in H. destruct H as [flat [w1 [Hsend H]]].
  apply bind_inv_ok in H. destruct H as [i [w2 [_ H]]].
  apply bind_inv_ok in H. destruct H as [u [w3 [_ H]]].
  unfold ret in H. injection H as <- _.
  rewrite send_ok in Hsend. injection Hsend as <- _.
  unfold clamped. cbn [best_flat_actuators]. apply map_clamp01_idem.
Qed.

(** One round, step by step: the frame acquired and unwrapped, the
    amplitudes measured on it, the command sent from them on top of the
    vector kept, and what is kept afterwards, decided by the RMS error of
    the phase just unwrapped. *)
Lemma flatten_step_inv nz ign b w b' w' :
  flatten_step py nz ign b w = (Ok b', w') ->
  exists interferogram w1 unwrapped w2 z0 z flat,
    acquire w = (Ok interferogram, w1) /\
    phaseunwrap py interferogram w1 = (Ok unwrapped, w2) /\
    get_zernike_modes unwrapped nz 128 = Ok z0 /\
    np_mul1 z0 ign = Ok z /\
    set_phase z (Some (best_flat_actuators b)) w2 = (Ok flat, w') /\
    hd_error (mirror w') = Some flat /\
    b' = keep_best b flat z (rms_of unwrapped).
Proof.
  unfold flatten_step. intros H.
  apply bind_inv_ok in H. destruct H as [i [w1 [H1 H]]].
  apply bind_inv_ok in H. destruct H as [u [w2 [H2 H]]].
  apply bind_inv_ok in H. destruct H as [z0 [w3 [H3 H]]].
  apply bind_inv_ok in H. destruct H as [z [w4 [H4 H]]].
  apply bind_inv_ok in H. destruct H as [flat [w5 [Hset H]]].
  unfold ret in H. injection H as <- <-.
  unfold getzernikemodes, lift in H3. injection H3 as H3 <-.
  unfold lift in H4. injection H4 as H4 <-.
  exists i, w1, u, w2, z0, z, flat.
  repeat (split; [assumption|]).
  split; [|reflexivity].
  apply set_phase_ok in Hset. destruct Hset as [_ [rest ->]]. reflexivity.
Qed.

Lemma flatten_first_inv nact nz w b0 w' :
  flatten_first py nact nz w = (Ok b0, w') ->
  exists flat0 w1 interferogram w2 unwrapped,
    send (map (fun v => PrimFloat.add v 0.5) (np_zeros nact)) w = (Ok flat0, w1) /\
    acquire w1 = (Ok interferogram, w2) /\
    phaseunwrap py interferogram w2 = (Ok unwrapped, w') /\
    b0 = mkBest flat0 (np_zeros nz) (rms_of unwrapped).
Proof.
  unfold flatten_first. intros H.
  apply bind_inv_ok in H. destruct H as [flat [w1 [Hsend H]]].
  apply bind_inv_ok in H. destruct H as [i [w2 [Hacq H]]].
  apply bind_inv_ok in H. destruct H as [u [w3 [Hun H]]].
  unfold ret in H. injection H as <- <-.
  now exists flat, w1, i, w2, u.
Qed.

Lemma keep_best_rms b flat z rms :
  best_rms_error (keep_best b flat z rms) = best_rms_error b \/
  PrimFloat.ltb (best_rms_error (keep_best b flat z rms)) (best_rms_error b)
  = true.
Proof.
  unfold keep_best. destruct (PrimFloat.ltb rms (best_rms_error b)) eqn:E.
  - right. exact E.
  - left. now destruct (PrimFloat.ltb (best_rms_error b) rms).
Qed.

Lemma flatten_loop_rms nz ign rounds b w b' w' :
  flatten_loop py nz ign rounds b w = (Ok b', w') ->
  best_rms_error b' = best_rms_error b \/
  PrimFloat.ltb (best_rms_error b') (best_rms_error b) = true.
Proof.
  revert b w. induction rounds as [|rounds IH]; intros b w H; simpl in H.
  - unfold ret in H. injection H as <- _. now left.
  - apply bind_inv_ok in H. destruct H as [b1 [w1 [Hstep H]]].
    apply flatten_step_inv in Hstep.
    destruct Hstep as (i & wa & u & wb & z0 & z & flat & _ & _ & _ & _ & _ & _ & ->).
    destruct (IH _ _ H) as [E|E];
      destruct (keep_best_rms b flat z (rms_of u)) as [K|K].
    + left. congruence.
    + right. now rewrite E.
    + right. now rewrite <- K.
    + right. eapply ltb_trans; eauto.
Qed.

(** C2, amended.  A round of the loop acquires a frame, unwraps it,
    measures the mode amplitudes and sends the command computed from them
    on top of the vector kept; what it keeps afterwards is decided by the
    RMS error of the phase it has just unwrapped.  The best RMS error, and
    the mode amplitudes kept with it, are overwritten only when that new
    error is strictly smaller than the best one, and then the vector kept
    becomes the command the round has just sent.  When the new error is
    larger nothing is overwritten.  When it is neither smaller nor larger
    (equal, or a NaN on either side) the vector kept is overwritten by the
    new command all the same, the best error staying.  The first best error
    is the one measured at the rest position; the rounds are run one after
    the other, each from what the one before has kept, and through them the
    best error stays or gets strictly smaller.  Once the rounds are
    through, the vector kept is what [flatten_phase] sends to the mirror
    last and what it returns. *)
Theorem flatten_phase_keeps_best :
  (forall b flat z rms,
     (PrimFloat.ltb rms (best_rms_error b) = true ->
      keep_best b flat z rms = mkBest flat z rms) /\
     (PrimFloat.ltb rms (best_rms_error b) = false ->
      best_rms_error (keep_best b flat z rms) = best_rms_error b /\
      best_z_amps (keep_best b flat z rms) = best_z_amps b) /\
     (PrimFloat.ltb rms (best_rms_error b) = false ->
      PrimFloat.ltb (best_rms_error b) rms = true ->
      keep_best b flat z rms = b) /\
     (PrimFloat.ltb rms (best_rms_error b) = false ->
      PrimFloat.ltb (best_rms_error b) rms = false ->
      best_flat_actuators (keep_best b flat z rms) = flat)) /\
  (forall nz ign b w b' w',
     flatten_step py nz ign b w = (Ok b', w') ->
     exists interferogram w1 unwrapped w2 z0 z flat,
       acquire w = (Ok interferogram, w1) /\
       phaseunwrap py interferogram w1 = (Ok unwrapped, w2) /\
       get_zernike_modes unwrapped nz 128 = Ok z0 /\
       np_mul1 z0 ign = Ok z /\
       set_phase z (Some (best_flat_actuators b)) w2 = (Ok flat, w') /\
       hd_error (mirror w') = Some flat /\
       b' = keep_best b flat z (rms_of unwrapped)) /\
  (forall nact nz w b0 w',
     flatten_first py nact nz w = (Ok b0, w') ->
     exists flat0 w1 interferogram w2 unwrapped,
       send (map (fun v => PrimFloat.add v 0.5) (np_zeros nact)) w
         = (Ok flat0, w1) /\
       acquire w1 = (Ok interferogram, w2) /\
       phaseunwrap py interferogram w2 = (Ok unwrapped, w') /\
       b0 = mkBest flat0 (np_zeros nz) (rms_of unwrapped)) /\
  (forall nz ign b w, flatten_loop py nz ign 0 b w = (Ok b, w)) /\
  (forall nz ign rounds b w,
     flatten_loop py nz ign (S rounds) b w =
     match flatten_step py nz ign b w with
     | (Ok b1, w1) => flatten_loop py nz ign rounds b1 w1
     | (Raise e, w1) => (Raise e, w1)
     end) /\
  (forall nz ign rounds b w b' w',
     flatten_loop py nz ign rounds b w = (Ok b', w') ->
     best_rms_error b' = best_rms_error b \/
     PrimFloat.ltb (best_rms_error b') (best_rms_error b) = true) /\
  (forall iterations ign w nact nz ig w1 b0 w2 b w3,
     flatten_start py ign w = (Ok (nact, nz, ig), w1) ->
     flatten_first py nact nz w1 = (Ok b0, w2) ->
     flatten_loop py nz ig (Z.to_nat iterations) b0 w2 = (Ok b, w3) ->
     flatten_phase py iterations ign w =
     (Ok (best_flat_actuators b),
      mkWorld (aoAlg w3) (dev w3) (best_flat_actuators b :: mirror w3)
              (frames w3))).
Proof.
  split; [|split; [|split; [|split; [|split; [|split]]]]].
  - intros b flat z rms. unfold keep_best.
    split; [|split; [|split]].
    + intros H1. now rewrite H1.
    + intros H1. rewrite H1. destruct (PrimFloat.ltb _ rms); now split.
    + intros H1 H2. now rewrite H1, H2.
    + intros H1 H2. now rewrite H1, H2.
  - intros nz ign b w b' w' H. now apply flatten_step_inv.
  - intros nact nz w b0 w' H. now apply flatten_first_inv.
  - reflexivity.
  - intros nz ign rounds b w. cbn [flatten_loop]. unfold bind.
    destruct (flatten_step py nz ign b w) as [[b1|e] w1]; reflexivity.
  - intros nz ign rounds b w b' w' H. eapply flatten_loop_rms; eauto.
  - intros iterations ign w nact nz ig w1 b0 w2 b w3 Hstart Hfirst Hloop.
    unfold flatten_phase.
    rewrite (bind_ok _ _ _ _ _ Hstart).
    rewrite (bind_ok _ _ _ _ _ Hfirst).
    rewrite (bind_ok _ _ _ _ _ Hloop).
    rewrite send_ok.
    assert (Hc : clamped b).
    { eapply flatten_loop_clamped; [|exact Hloop].
      eapply flatten_first_clamped; eauto. }
    unfold clamped in Hc. now rewrite Hc.
Qed.

End Flatten.

(** One round on the device with one actuator. *)
Lemma flatten_phase_keeps_best_witness :
  exists w',
    flatten_phase (lib := sim) (hw := sim_camera) Python3 1 (Some [1%float])
      one_actuator_world = (Ok [0.25%float], w') /\
    mirror w' = [[0.25%float]; [0.25%float]; [0.5%float]].
Proof.
  destruct (flatten_phase_keeps_best (lib := sim) (hw := sim_camera) Python3)
    as [_ [_ [_ [_ [_ [_ H]]]]]].
  eexists. split.
  - erewrite (H 1 (Some [1%float]) one_actuator_world)
      by (vm_compute; reflexivity).
    vm_compute. reflexivity.
  - vm_compute. reflexivity.
Defined.

(** ** make_ring_mask *)

Lemma ring_at size inner outer i j :
  0 <= i < 2 * (fst size / 2) -> 0 <= j < 2 * (fst size / 2) ->
  at2 (make_ring_mask size inner outer) i j =
  Some (Z.b2z (PrimFloat.ltb (pixel_dist (i - fst size / 2) (j - fst size / 2)) outer)
        * ((Z.b2z (PrimFloat.ltb (pixel_dist (i - fst size / 2) (j - fst size / 2)) inner)
            - 1) * -1)).
Proof.
  intros Hi Hj. unfold at2, make_ring_mask.
  rewrite zth_map, zth_arange by lia. cbn [option_map].
  rewrite zth_map, zth_arange by lia. cbn [option_map].
  now replace (- (fst size / 2) + i) with (i - fst size / 2) by lia;
    replace (- (fst size / 2) + j) with (j - fst size / 2) by lia.
Qed.

Lemma ring_value_nonzero (o n : bool) :
  Z.b2z o * ((Z.b2z n - 1) * -1) <> 0 <-> o = true /\ n = false.
Proof. destruct o, n; cbn; split; intros H; try lia; try easy; destruct H; congruence. Qed.

(** Along an increasing sequence every later entry is at least an earlier
    one. *)
Lemma increasing_chain (radii : vec) :
  (forall m a b, zth radii m = Some a -> zth radii (m + 1) = Some b ->
     PrimFloat.leb a b = true) ->
  forall n m a b, 0 <= m ->
    zth radii m = Some a -> zth radii (m + 1 + Z.of_nat n) = Some b ->
    PrimFloat.leb a b = true.
Proof.
  intros Hinc n. induction n as [|n IH]; intros m a b Hm Ha Hb.
  - apply (Hinc m); auto. now rewrite Z.add_0_r in Hb.
  - destruct (zth radii (m + 1 + Z.of_nat n)) as [c|] eqn:Ec.
    + apply (leb_trans a c b).
      * eapply IH; eauto.
      * apply (Hinc (m + 1 + Z.of_nat n)); auto.
        now replace (m + 1 + Z.of_nat n + 1) with (m + 1 + Z.of_nat (S n)) by lia.
    + exfalso. unfold zth in *.
      destruct (Z.ltb_spec (m + 1 + Z.of_nat n) 0); [lia|].
      destruct (Z.ltb_spec (m + 1 + Z.of_nat (S n)) 0); [lia|].
      apply nth_error_None in Ec.
      assert (Hsome : nth_error radii (Z.to_nat (m + 1 + Z.of_nat (S n))) <> None)
        by congruence.
      apply nth_error_Some in Hsome. lia.
Qed.

(** C10: with the grid centre at pixel (radius, radius), radius being half
    the size, and the distance being the float64 root the code takes, a
    pixel of [make_ring_mask(size, inner_rad, outer_rad)] is 1 exactly when
    [inner_rad <= distance < outer_rad] and 0 otherwise, for 0 <= inner_rad;
    and of two rings cut from one increasing sequence of radii, no pixel is
    set in both. *)
Theorem make_ring_mask_spec :
  (forall size inner_rad outer_rad i j,
     0 <= i < 2 * (fst size / 2) -> 0 <= j < 2 * (fst size / 2) ->
     PrimFloat.leb 0 inner_rad = true ->
     exists v,
       at2 (make_ring_mask size inner_rad outer_rad) i j = Some v /\
       (v = 0 \/ v = 1) /\
       (v <> 0 <->
        PrimFloat.leb inner_rad (pixel_dist (i - fst size / 2) (j - fst size / 2)) = true /\
        PrimFloat.ltb (pixel_dist (i - fst size / 2) (j - fst size / 2)) outer_rad = true)) /\
  (forall size (radii : vec) k l rk rk1 rl rl1 i j vk vl,
     (forall m a b, zth radii m = Some a -> zth radii (m + 1) = Some b ->
        PrimFloat.leb a b = true) ->
     0 <= k < l ->
     zth radii k = Some rk -> zth radii (k + 1) = Some rk1 ->
     zth radii l = Some rl -> zth radii (l + 1) = Some rl1 ->
     0 <= i < 2 * (fst size / 2) -> 0 <= j < 2 * (fst size / 2) ->
     at2 (make_ring_mask size rk rk1) i j = Some vk ->
     at2 (make_ring_mask size rl rl1) i j = Some vl ->
     vk = 0 \/ vl = 0).
Proof.
  split.
  - intros size inner outer i j Hi Hj Hinner.
    rewrite ring_at by lia.
    set (d := pixel_dist (i - fst size / 2) (j - fst size / 2)).
    eexists. split; [reflexivity|]. split.
    + destruct (PrimFloat.ltb d outer), (PrimFloat.ltb d inner); cbn; auto.
    + rewrite ring_value_nonzero. split.
      * intros [Ho Hn]. split; [|exact Ho].
        now apply (ltb_false_iff_leb d inner 0%float outer).
      * intros [Hle Ho]. split; [exact Ho|]. now apply leb_true_ltb_false.
  - intros size radii k l rk rk1 rl rl1 i j vk vl Hinc Hkl Hk Hk1 Hl Hl1 Hi Hj.
    rewrite !ring_at by lia.
    set (d := pixel_dist (i - fst size / 2) (j - fst size / 2)).
    intros Hvk Hvl. injection Hvk as <-. injection Hvl as <-.
    destruct (PrimFloat.ltb d rk1) eqn:E1; [|now left].
    right.
    assert (Hle : PrimFloat.leb rk1 rl = true \/ rk1 = rl).
    { destruct (Z.eq_dec (k + 1) l) as [<-|Hne].
      - right. congruence.
      - left. apply (increasing_chain radii Hinc (Z.to_nat (l - (k + 1) - 1)) (k + 1));
          auto; [lia|].
        now replace (k + 1 + 1 + Z.of_nat (Z.to_nat (l - (k + 1) - 1))) with l by lia. }
    assert (E2 : PrimFloat.ltb d rl = true).
    { destruct Hle as [Hle| <-]; [|exact E1]. now apply (ltb_leb_trans d rk1 rl). }
    rewrite E2. cbn. lia.
Qed.

(** The ring between 0.5 and 1.5 on a 4 by 4 grid, at pixel (1, 2), one
    below the centre (2, 2). *)
Lemma make_ring_mask_spec_witness :
  exists v,
    at2 (make_ring_mask (4, 4) 0.5%float 1.5%float) 1 2 = Some v /\
    (v = 0 \/ v = 1) /\
    (v <> 0 <->
     PrimFloat.leb 0.5 (pixel_dist (1 - fst (4, 4) / 2) (2 - fst (4, 4) / 2)) = true /\
     PrimFloat.ltb (pixel_dist (1 - fst (4, 4) / 2) (2 - fst (4, 4) / 2)) 1.5 = true).
Proof.
  apply (proj1 make_ring_mask_spec (4, 4) 0.5%float 1.5%float 1 2).
  - cbn. lia.
  - cbn. lia.
  - reflexivity.
Defined.

(** * Further properties *)

(** ** get_zernike_modes: the resize dimension *)

Lemma resize_search_finds o fuel D :
  1 <= D -> (Z.to_nat D <= fuel)%nat ->
  exists d, resize_search fuel o D = Some (Ok d) /\
    1 <= d <= D /\ o mod d = 0 /\
    forall d', d < d' <= D -> o mod d' <> 0.
Proof.
  revert D. induction fuel as [|fuel IH]; intros D HD Hfuel; [lia|].
  simpl. destruct (Z.eqb_spec D 0) as [->|_]; [lia|].
  destruct (Z.eqb_spec (o mod D) 0) as [Hdiv|Hndiv].
  - exists D. repeat split; auto; lia.
  - assert (D <> 1) by (intros ->; rewrite Z.mod_1_r in Hndiv; lia).
    destruct (IH (D - 1)) as [d [Hs [Hr [Hd Hmax]]]]; [lia|lia|].
    exists d. repeat split; auto; try lia.
    intros d' Hd'. destruct (Z.eq_dec d' D) as [->|Hne]; [exact Hndiv|].
    apply Hmax. lia.
Qed.

(** X1.  For a side [o >= 0] and a requested dimension [D >= 1] the loop of lines
    229-230 ends, after at most [D] tests, on the largest divisor [d] of [o]
    that is at most [D].  Under Python 2 the dimension used is [d], or the
    cofactor [o / d] when [d] is the smaller of the two: it divides [o] and
    the blocks are no wider than the grid.  Under Python 3 the call goes
    through exactly when [d] is not the smaller one. *)
Theorem choose_resize_dim_spec (o D : Z) (Ho : 0 <= o) (HD : 1 <= D) :
  exists d,
    resize_search (Z.to_nat D) o D = Some (Ok d) /\
    1 <= d <= D /\ o mod d = 0 /\
    (forall d', d < d' <= D -> o mod d' <> 0) /\
    (exists r, choose_resize_dim Python2 (Z.to_nat D) o D = Some (Ok r) /\
               o mod r = 0 /\ o / r <= r /\ (r = d \/ r = o / d)) /\
    choose_resize_dim Python3 (Z.to_nat D) o D =
      (if d <? o / d then Some (Raise TypeError) else Some (Ok d)).
Proof.
  destruct (resize_search_finds o (Z.to_nat D) D HD (Nat.le_refl _))
    as [d [Hs [Hr [Hd Hmax]]]].
  exists d. split; [exact Hs|]. split; [exact Hr|]. split; [exact Hd|].
  split; [exact Hmax|]. unfold choose_resize_dim. rewrite Hs.
  split; [|reflexivity].
  assert (Ho' : o = d * (o / d)) by (apply Z.div_exact; lia).
  remember (o / d) as q eqn:Eq.
  destruct (Z.ltb_spec d q) as [Hlt|Hge].
  - exists q. split; [reflexivity|].
    assert (Hq : o / q = d) by (rewrite Ho'; apply Z.div_mul; lia).
    repeat split.
    + rewrite Ho'. apply Z.mod_mul. lia.
    + lia.
    + now right.
  - exists d. split; [reflexivity|]. repeat split; auto.
    lia.
Qed.

Lemma choose_resize_dim_spec_witness :
  exists d,
    resize_search (Z.to_nat 128) 254 128 = Some (Ok d) /\
    1 <= d <= 128 /\ 254 mod d = 0 /\
    (forall d', d < d' <= 128 -> 254 mod d' <> 0) /\
    (exists r, choose_resize_dim Python2 (Z.to_nat 128) 254 128 = Some (Ok r) /\
               254 mod r = 0 /\ 254 / r <= r /\ (r = d \/ r = 254 / d)) /\
    choose_resize_dim Python3 (Z.to_nat 128) 254 128 =
      (if d <? 254 / d then Some (Raise TypeError) else Some (Ok d)).
Proof. apply (choose_resize_dim_spec 254 128); lia. Defined.

(** ** make_fft_filter: when the windows fit *)

Lemma slice_bound_neg n i :
  i < 0 -> slice_bound n i = Z.max 0 (i + n).
Proof.
  intros H. unfold slice_bound. cbv zeta.
  destruct (Z.ltb_spec i 0) as [_|Hge]; [|lia].
  destruct (Z.ltb_spec (i + n) 0); [lia|].
  destruct (Z.ltb_spec n (i + n)); lia.
Qed.

Lemma slice_bound_pos n i :
  0 <= i -> slice_bound n i = Z.min n i.
Proof.
  intros H. unfold slice_bound. cbv zeta.
  destruct (Z.ltb_spec i 0) as [Hlt|_]; [lia|].
  destruct (Z.ltb_spec i 0) as [Hlt|_]; [lia|].
  destruct (Z.ltb_spec n i); lia.
Qed.

Lemma window_axis n y :
  50 <= n -> 0 <= y < n ->
  (broadcastable (slice_len n (y - 25) (y + 25)) 50 = true <-> 25 <= y <= n - 25).
Proof.
  intros Hn Hy. unfold broadcastable, slice_len.
  rewrite orb_true_iff, !Z.eqb_eq, (slice_bound_pos n (y + 25)) by lia.
  destruct (Z.lt_ge_cases (y - 25) 0).
  - rewrite slice_bound_neg by lia. lia.
  - rewrite slice_bound_pos by lia. lia.
Qed.

Section PeakWindow.
Context {lib : Numerics}.
Variable py : dialect.

(** X2.  On a spectrum of at least 50 rows and 50 columns, and for a point inside
    it, the window of line 158 fits exactly when the point is 25 pixels or
    more from the top and left edges and its row and column are at most the
    side minus 25; otherwise the round of refinement ends in the error of
    the handler of line 160. *)
Theorem refine_peak_window (fftarray : carray) (s0 s1 mx my : Z) (rounds : nat)
    (Hshape : shape2 fftarray = (s0, s1))
    (H0 : 50 <= s0) (H1 : 50 <= s1)
    (Hy : 0 <= my < s0) (Hx : 0 <= mx < s1) :
  (window_fits fftarray (mx, my) = true <->
   25 <= my <= s0 - 25 /\ 25 <= mx <= s1 - 25) /\
  (~ (25 <= my <= s0 - 25 /\ 25 <= mx <= s1 - 25) ->
   refine_peak py fftarray (S rounds) (mx, my) = Raise (with_traceback_error py)).
Proof.
  assert (Hfit : window_fits fftarray (mx, my) = true <->
                 25 <= my <= s0 - 25 /\ 25 <= mx <= s1 - 25).
  { unfold window_fits. rewrite Hshape, andb_true_iff.
    now rewrite (window_axis s0 my H0 Hy), (window_axis s1 mx H1 Hx). }
  split; [exact Hfit|].
  intros Hout. cbn -[window_fits].
  destruct (window_fits fftarray (mx, my)); [|reflexivity].
  exfalso. apply Hout. now apply Hfit.
Qed.

Lemma zlength_repeat {A} (x : A) n : zlength (repeat x n) = Z.of_nat n.
Proof. unfold zlength. now rewrite repeat_length. Qed.

Lemma shape2_np_zeros2 s0 s1 :
  0 < s0 -> 0 <= s1 -> shape2 (np_zeros2 s0 s1) = (s0, s1).
Proof.
  intros H0 H1. unfold shape2, np_zeros2. rewrite zlength_repeat.
  destruct (Z.to_nat s0) as [|n] eqn:E; [lia|]. simpl.
  unfold np_zeros. rewrite zlength_repeat. f_equal; lia.
Qed.

Lemma shape2_nonneg {A} (a : list (list A)) s0 s1 :
  shape2 a = (s0, s1) -> 0 <= s0 /\ 0 <= s1.
Proof.
  unfold shape2, zlength. intros H. injection H as <- <-.
  split; [lia|]. destruct a; lia.
Qed.

(** X3.  A call of [make_fft_filter] can fail after line 169.  When the first
    order point is found but the filter window, of side [mask_di > 1],
    starts inside the spectrum and runs past its last row, the assignment
    of line 179 raises [ValueError], and the object is left holding the
    all-zero filter of line 169. *)
Theorem make_fft_filter_late_failure (image : array2) (region : option Z)
    (s : AdaptiveOpticsFunctions) (fftarray : carray) (mx my s0 s1 : Z)
    (shift : bool)
    (Hpoint : find_first_order_point py image region = Ok (fftarray, (mx, my), shift))
    (Hshape : shape2 fftarray = (s0, s1))
    (Hdi : 1 < 5 * zlength image / 16)
    (Hmin : 0 <= my - 5 * zlength image / 16 / 2 < s0)
    (Hmax : s0 < my + (5 * zlength image / 16 + 1) / 2) :
  make_fft_filter py image region s =
  (Raise ValueError, set_alg_fft_filter (Some (np_zeros2 s0 s1)) s).
Proof.
  unfold make_fft_filter, bind, lift. rewrite Hpoint, Hshape.
  unfold modify. cbv beta iota.
  destruct (shape2_nonneg _ _ _ Hshape) as [Hs0 Hs1].
  unfold paste2. rewrite shape2_np_zeros2 by lia.
  set (di := 5 * zlength image / 16) in *.
  assert (Hb : broadcastable di (slice_len s0 (my - di / 2) (my + (di + 1) / 2)) = false).
  { unfold broadcastable, slice_len.
    apply orb_false_iff. rewrite !Z.eqb_neq.
    assert (di / 2 + (di + 1) / 2 = di).
    { pose proof (Z.div_mod di 2). pose proof (Z.div_mod (di + 1) 2).
      pose proof (Z.mod_pos_bound di 2). pose proof (Z.mod_pos_bound (di + 1) 2).
      lia. }
    assert (0 <= (di + 1) / 2) by (apply Z.div_pos; lia).
    rewrite !slice_bound_pos by lia. lia. }
  rewrite Hb. reflexivity.
Qed.

End PeakWindow.

Lemma refine_peak_window_witness :
  refine_peak (lib := sim) Python3
    (map (map (fun v => (v, 0%float))) (peak_image 64 30 10)) 3 (10, 30)
  = Raise TypeError.
Proof.
  apply (refine_peak_window (lib := sim) Python3
           (map (map (fun v => (v, 0%float))) (peak_image 64 30 10))
           64 64 10 30 2);
    try (vm_compute; reflexivity); lia.
Defined.

(** A 176 by 176 spectrum with its first order at row 62 and column 40: the
    shift of line 142 takes it to (x = 128, y = 150), where the window of
    the refinement fits and the filter window, 55 rows from row 123 on,
    does not. *)
Lemma make_fft_filter_late_failure_witness :
  make_fft_filter (lib := sim) Python3 (peak_image 176 62 40) None alg_init
  = (Raise ValueError, set_alg_fft_filter (Some (np_zeros2 176 176)) alg_init).
Proof.
  eapply (make_fft_filter_late_failure (lib := sim) Python3
            (peak_image 176 62 40) None alg_init _ 128 150 176 176 true).
  - vm_compute. reflexivity.
  - vm_compute. reflexivity.
  - vm_compute. reflexivity.
  - vm_compute. split; [discriminate|reflexivity].
  - vm_compute. reflexivity.
Defined.

(** ** What the device keeps across its operations *)

Section Respects.
Context {S : Type} (R : S -> S -> Prop).
Hypothesis R_refl : forall s, R s s.
Hypothesis R_trans : forall a b c, R a b -> R b c -> R a c.

Lemma respects_ret {A} (a : A) : respects R (ret a).
Proof. intros s r s' H. injection H as _ <-. apply R_refl. Qed.

Lemma respects_raise {A} e : respects R (@raise S A e).
Proof. intros s r s' H. injection H as _ <-. apply R_refl. Qed.

Lemma respects_lift {A} (x : result A) : respects R (lift x).
Proof. intros s r s' H. injection H as _ <-. apply R_refl. Qed.

Lemma respects_get : respects R (@get S).
Proof. intros s r s' H. injection H as _ <-. apply R_refl. Qed.

Lemma respects_modify (f : S -> S) :
  (forall s, R s (f s)) -> respects R (modify f).
Proof. intros Hf s r s' H. injection H as _ <-. apply Hf. Qed.

Lemma respects_bind {A B} (m : M S A) (k : A -> M S B) :
  respects R m -> (forall a, respects R (k a)) -> respects R (bind m k).
Proof.
  intros Hm Hk s r s' H. unfold bind in H.
  destruct (m s) as [[a|e] s1] eqn:E.
  - eapply R_trans; [eapply Hm; eauto|eapply Hk; eauto].
  - injection H as _ <-. eapply Hm; eauto.
Qed.

End Respects.

Lemma device_run_refl w : device_run w w.
Proof.
  unfold device_run. repeat split; auto. exists []. split; [reflexivity|constructor].
Qed.

Lemma device_run_trans a b c : device_run a b -> device_run b c -> device_run a c.
Proof.
  unfold device_run.
  intros (H1 & H2 & H3 & H4 & (n1 & Hm1 & Hc1) & H6)
         (K1 & K2 & K3 & K4 & (n2 & Hm2 & Hc2) & K6).
  repeat split; try congruence; try lia.
  exists (n2 ++ n1). split.
  - rewrite Hm2, Hm1. now rewrite app_assoc.
  - apply Forall_app. now split.
Qed.

Lemma keeps_matrix_trans a b c :
  keeps_matrix a b -> keeps_matrix b c -> keeps_matrix a c.
Proof. unfold keeps_matrix. congruence. Qed.

Lemma quiet_run_refl w : quiet_run w w.
Proof. unfold quiet_run. repeat split; auto. Qed.

Lemma quiet_run_trans a b c : quiet_run a b -> quiet_run b c -> quiet_run a c.
Proof.
  unfold quiet_run.
  intros (H1 & H2 & H3 & H4 & H5 & H6) (K1 & K2 & K3 & K4 & K5 & K6).
  repeat split; try congruence; try lia.
Qed.

Lemma quiet_run_device_run w w' : quiet_run w w' -> device_run w w'.
Proof.
  unfold quiet_run, device_run. intros (H1 & H2 & H3 & H4 & H5 & H6).
  repeat split; auto. exists []. split; [exact H5|constructor].
Qed.

Lemma respects_weaken {S A} (R R' : S -> S -> Prop) (m : M S A) :
  (forall s s', R s s' -> R' s s') -> respects R m -> respects R' m.
Proof. intros HR Hm s r s' H. eapply HR, Hm, H. Qed.

Ltac respects_step R_refl R_trans :=
  first
    [ apply respects_ret; exact R_refl
    | apply respects_raise; exact R_refl
    | apply respects_lift; exact R_refl
    | apply respects_get; exact R_refl
    | apply respects_bind; [exact R_trans| |intros ?]
    | match goal with
      | |- respects _ (match ?x with _ => _ end) => destruct x
      end ].

Section DeviceRuns.
Context {lib : Numerics} {hw : Hardware}.
Variable py : dialect.

Lemma make_mask_keeps_matrix r : respects keeps_matrix (make_mask r).
Proof.
  unfold make_mask.
  apply respects_bind; [exact keeps_matrix_trans| |intros ?].
  - now apply respects_modify.
  - now apply respects_ret.
Qed.

Lemma make_fft_filter_keeps_matrix image region :
  respects keeps_matrix (make_fft_filter py image region).
Proof.
  unfold make_fft_filter.
  repeat (respects_step (fun s => eq_refl (controlMatrix s)) keeps_matrix_trans);
    try (apply respects_modify; intros s; reflexivity).
Qed.

Lemma phase_unwrap_keeps_matrix image :
  respects keeps_matrix (phase_unwrap image).
Proof.
  unfold phase_unwrap.
  repeat (respects_step (fun s => eq_refl (controlMatrix s)) keeps_matrix_trans).
Qed.

Lemma ac_pos_from_zernike_pure z n s r s' :
  ac_pos_from_zernike z n s = (r, s') -> s = s'.
Proof.
  revert s r s'. change (respects eq (ac_pos_from_zernike z n)).
  unfold ac_pos_from_zernike.
  repeat (respects_step (@eq_refl AdaptiveOpticsFunctions)
                        (@eq_trans AdaptiveOpticsFunctions)).
Qed.

Lemma call_aoAlg_quiet {A} (m : M AdaptiveOpticsFunctions A) :
  respects keeps_matrix m -> respects quiet_run (call_aoAlg m).
Proof.
  intros Hm w r w' H. unfold call_aoAlg in H.
  destruct (m (aoAlg w)) as [r0 a] eqn:E. injection H as _ <-.
  apply Hm in E. unfold quiet_run. cbn. repeat split; auto.
Qed.

Lemma modify_dev_quiet (f : AdaptiveOpticsDevice -> AdaptiveOpticsDevice) :
  (forall d, roi (f d) = roi d /\ numActuators (f d) = numActuators d /\
             dev_controlMatrix (f d) = dev_controlMatrix d) ->
  respects quiet_run (modify (set_dev f)).
Proof.
  intros Hf. apply respects_modify. intros w.
  destruct (Hf (dev w)) as (H1 & H2 & H3).
  unfold quiet_run. cbn. repeat split; auto.
Qed.

Ltac quiet_step :=
  first
    [ respects_step quiet_run_refl quiet_run_trans
    | apply modify_dev_quiet; intros d; cbn; auto
    | apply call_aoAlg_quiet ].

Lemma dev_make_mask_quiet r : respects quiet_run (dev_make_mask r).
Proof.
  unfold dev_make_mask. repeat quiet_step. apply make_mask_keeps_matrix.
Qed.

Lemma acquire_quiet : respects quiet_run acquire.
Proof.
  unfold acquire.
  repeat first
    [ apply dev_make_mask_quiet
    | apply respects_modify; intros w; unfold quiet_run; cbn;
      repeat split; auto
    | quiet_step ].
Qed.

Lemma set_fourierfilter_quiet image region :
  respects quiet_run (set_fourierfilter py image region).
Proof.
  unfold set_fourierfilter. repeat quiet_step.
  intros w r w' H.
  destruct (call_aoAlg (make_fft_filter py image region) w) as [[f|e] w1] eqn:E;
    injection H as _ <-;
    apply (call_aoAlg_quiet _ (make_fft_filter_keeps_matrix image region)) in E.
  - eapply quiet_run_trans; [exact E|].
    unfold quiet_run. cbn. repeat split; auto.
  - exact E.
Qed.

Lemma phaseunwrap_quiet image : respects quiet_run (phaseunwrap py image).
Proof.
  unfold phaseunwrap.
  repeat first
    [ apply dev_make_mask_quiet | apply set_fourierfilter_quiet
    | apply phase_unwrap_keeps_matrix | quiet_step ].
Qed.

Lemma acquire_unwrapped_phase_quiet :
  respects quiet_run (acquire_unwrapped_phase py).
Proof.
  unfold acquire_unwrapped_phase.
  repeat first
    [ apply acquire_quiet | apply set_fourierfilter_quiet
    | apply phaseunwrap_quiet | quiet_step ].
Qed.

(** X7.  Measuring the Zernike modes, whatever its outcome, gives the mirror
    nothing: the patterns applied are the same before and after, and so are
    the region of interest, the number of actuators and both control
    matrices; frames are only taken. *)
Theorem measure_zernike_quiet (noZernikeModes : Z) :
  respects quiet_run (measure_zernike py noZernikeModes).
Proof.
  unfold measure_zernike, getzernikemodes.
  apply respects_bind; [exact quiet_run_trans| |].
  - apply acquire_unwrapped_phase_quiet.
  - intros [i u]. apply respects_lift. exact quiet_run_refl.
Qed.

Lemma send_run values : respects device_run (send values).
Proof.
  intros w r w' H. rewrite send_ok in H. injection H as _ <-.
  unfold device_run. cbn. repeat split; auto.
  exists [map clamp01 values]. split; [reflexivity|].
  constructor; [apply map_clamp01_idem|constructor].
Qed.

Lemma acquire_run : respects device_run acquire.
Proof.
  eapply respects_weaken; [exact quiet_run_device_run|apply acquire_quiet].
Qed.

Lemma set_fourierfilter_run image region :
  respects device_run (set_fourierfilter py image region).
Proof.
  eapply respects_weaken;
    [exact quiet_run_device_run|apply set_fourierfilter_quiet].
Qed.

Lemma phaseunwrap_run image : respects device_run (phaseunwrap py image).
Proof.
  eapply respects_weaken; [exact quiet_run_device_run|apply phaseunwrap_quiet].
Qed.

Lemma modify_dev_run (f : AdaptiveOpticsDevice -> AdaptiveOpticsDevice) :
  (forall d, roi (f d) = roi d /\ numActuators (f d) = numActuators d /\
             dev_controlMatrix (f d) = dev_controlMatrix d) ->
  respects device_run (modify (set_dev f)).
Proof.
  intros Hf. eapply respects_weaken;
    [exact quiet_run_device_run|now apply modify_dev_quiet].
Qed.

Lemma call_aoAlg_run {A} (m : M AdaptiveOpticsFunctions A) :
  respects keeps_matrix m -> respects device_run (call_aoAlg m).
Proof.
  intros Hm. eapply respects_weaken;
    [exact quiet_run_device_run|now apply call_aoAlg_quiet].
Qed.

Ltac run_step :=
  first
    [ apply send_run
    | apply acquire_run
    | apply set_fourierfilter_run
    | apply phaseunwrap_run
    | respects_step device_run_refl device_run_trans
    | apply modify_dev_run; intros d; cbn; auto
    | apply call_aoAlg_run ].

Lemma set_phase_run z offset : respects device_run (set_phase z offset).
Proof.
  unfold set_phase. repeat run_step.
  intros s r s' H. apply ac_pos_from_zernike_pure in H. now subst.
Qed.

Lemma flatten_step_run nz ign b : respects device_run (flatten_step py nz ign b).
Proof.
  unfold flatten_step, getzernikemodes.
  repeat first [ apply set_phase_run | run_step ].
Qed.

Lemma flatten_loop_run nz ign rounds b :
  respects device_run (flatten_loop py nz ign rounds b).
Proof.
  revert b. induction rounds as [|rounds IH]; intros b; simpl.
  - apply respects_ret. exact device_run_refl.
  - apply respects_bind; [exact device_run_trans| |intros b'; apply IH].
    apply flatten_step_run.
Qed.

Lemma flatten_start_run ign : respects device_run (flatten_start py ign).
Proof. unfold flatten_start. repeat run_step. Qed.

Lemma flatten_first_run nact nz : respects device_run (flatten_first py nact nz).
Proof. unfold flatten_first. repeat run_step. Qed.

(** X4.  Whatever its outcome, a value or an exception, [flatten_phase] leaves
    the region of interest, the number of actuators and both control
    matrices as they were, takes frames only forward, and gives the mirror
    nothing but patterns that [send] has clamped. *)
Theorem flatten_phase_run (iterations : Z) (ign : option vec) :
  respects device_run (flatten_phase py iterations ign).
Proof.
  unfold flatten_phase.
  apply respects_bind; [exact device_run_trans|apply flatten_start_run|].
  intros [[nact nz] ig].
  apply respects_bind; [exact device_run_trans|apply flatten_first_run|].
  intros b0.
  apply respects_bind; [exact device_run_trans|apply flatten_loop_run|].
  intros b. apply send_run.
Qed.

End DeviceRuns.

(** ** What set_phase and flatten_phase hand to the mirror *)

Lemma clamp01_range v : in_unit_range (clamp01 v).
Proof.
  unfold in_unit_range, clamp01.
  destruct (PrimFloat.ltb 1 v) eqn:E1; [split; reflexivity|].
  destruct (PrimFloat.ltb v 0) eqn:E2; [split; reflexivity|].
  now split.
Qed.

Lemma Forall_clamp01 v : Forall in_unit_range (map clamp01 v).
Proof. apply Forall_forall. intros x Hx. apply in_map_iff in Hx.
  destruct Hx as [y [<- _]]. apply clamp01_range. Qed.

Lemma zlength_map2 {A B C} (f : A -> B -> C) l m :
  zlength l = zlength m -> zlength (map2 f l m) = zlength l.
Proof. unfold zlength. intros H. rewrite length_map2; [reflexivity|lia]. Qed.

Lemma np_iadd1_length a b r : np_iadd1 a b = Ok r -> zlength r = zlength a.
Proof.
  unfold np_iadd1. destruct (Z.eqb_spec (zlength a) (zlength b)) as [E|E].
  - intros H. injection H as <-. now apply zlength_map2.
  - destruct b as [|y [|? ?]]; try discriminate.
    intros H. injection H as <-. apply zlength_map.
Qed.

Section MirrorPatterns.
Context {lib : Numerics} {hw : Hardware}.
Variable py : dialect.

Lemma ac_pos_from_zernike_length z n s p s' :
  ac_pos_from_zernike z n s = (Ok p, s') -> zlength p = n.
Proof.
  unfold ac_pos_from_zernike. intros H.
  apply bind_inv_ok in H. destruct H as [s0 [s1 [_ H]]].
  destruct (controlMatrix s0) as [cm|]; [|discriminate].
  apply bind_inv_ok in H. destruct H as [z' [s2 [_ H]]].
  apply bind_inv_ok in H. destruct H as [pos [s3 [_ H]]].
  destruct (Z.eqb_spec (zlength pos) n) as [E|E]; [|discriminate].
  unfold ret in H. now injection H as <- _.
Qed.

(** What a call of [set_phase] does to the process. *)
Lemma set_phase_effect z offset w r w' :
  set_phase z offset w = (r, w') ->
  match r with
  | Raise _ => w' = w
  | Ok flat =>
      w' = mkWorld (aoAlg w) (dev w) (flat :: mirror w) (frames w) /\
      zlength flat = numActuators (dev w) /\
      Forall in_unit_range flat
  end.
Proof.
  unfold set_phase, bind, get, call_aoAlg. destruct w as [a d m f].
  cbn [aoAlg dev mirror frames fst snd].
  destruct (ac_pos_from_zernike z (numActuators d) a) as [[p|e] a'] eqn:E.
  - pose proof (ac_pos_from_zernike_length _ _ _ _ _ E) as Hlen.
    apply ac_pos_from_zernike_pure in E. subst a'.
    unfold lift.
    destruct (match offset with
              | Some o => np_iadd1 (map (PrimFloat.mul (-1)) p) o
              | None => Ok (map (fun v => PrimFloat.add v 0.5)
                                (map (PrimFloat.mul (-1)) p))
              end) as [pos|e] eqn:Epos.
    + rewrite send_ok. cbn [aoAlg dev mirror frames]. intros H.
      injection H as <- <-.
      split; [reflexivity|split; [|apply Forall_clamp01]].
      rewrite zlength_map, <- Hlen.
      destruct offset as [o|].
      * apply np_iadd1_length in Epos. now rewrite Epos, zlength_map.
      * injection Epos as <-. now rewrite !zlength_map.
    + intros H. now injection H as <- <-.
  - apply ac_pos_from_zernike_pure in E. subst a'.
    intros H. now injection H as <- <-.
Qed.

(** X6.  [set_phase] either fails and leaves the process as it was, nothing
    having reached the mirror, or hands the mirror exactly one pattern, the
    one it returns: that pattern has [numActuators] entries, none above 1
    or below 0, and nothing else of the process changes. *)
Theorem set_phase_all_or_nothing (z : vec) (offset : option vec) (w : world) :
  match set_phase z offset w with
  | (Raise _, w') => w' = w
  | (Ok flat, w') =>
      w' = mkWorld (aoAlg w) (dev w) (flat :: mirror w) (frames w) /\
      zlength flat = numActuators (dev w) /\
      Forall in_unit_range flat
  end.
Proof.
  destruct (set_phase z offset w) as [r w'] eqn:E.
  apply set_phase_effect in E. exact E.
Qed.

Lemma keep_best_sized n b flat z rms :
  sized n b -> zlength flat = n -> Forall in_unit_range flat ->
  sized n (keep_best b flat z rms).
Proof.
  unfold sized, keep_best. intros Hb Hl Hf.
  destruct (PrimFloat.ltb rms _); [now split|].
  destruct (PrimFloat.ltb _ rms); [exact Hb|now split].
Qed.

Lemma flatten_step_sized nz ign b w b' w' :
  sized (numActuators (dev w)) b ->
  flatten_step py nz ign b w = (Ok b', w') ->
  sized (numActuators (dev w)) b'.
Proof.
  unfold flatten_step. intros Hb H.
  apply bind_inv_ok in H. destruct H as [i [w1 [H1 H]]].
  apply bind_inv_ok in H. destruct H as [u [w2 [H2 H]]].
  apply bind_inv_ok in H. destruct H as [z0 [w3 [H3 H]]].
  apply bind_inv_ok in H. destruct H as [z [w4 [H4 H]]].
  apply bind_inv_ok in H. destruct H as [flat [w5 [Hset H]]].
  unfold ret in H. injection H as <- _.
  apply acquire_quiet in H1. apply (phaseunwrap_quiet py) in H2.
  unfold getzernikemodes, lift in H3. injection H3 as _ <-.
  unfold lift in H4. injection H4 as _ <-.
  apply set_phase_effect in Hset. destruct Hset as (_ & Hl & Hf).
  destruct H1 as (_ & N1 & _). destruct H2 as (_ & N2 & _).
  apply keep_best_sized; auto. congruence.
Qed.

Lemma flatten_loop_sized nz ign rounds b w b' w' :
  sized (numActuators (dev w)) b ->
  flatten_loop py nz ign rounds b w = (Ok b', w') ->
  sized (numActuators (dev w)) b'.
Proof.
  revert b w. induction rounds as [|rounds IH]; intros b w Hb H; simpl in H.
  - unfold ret in H. now injection H as <- _.
  - apply bind_inv_ok in H. destruct H as [b1 [w1 [Hstep H]]].
    pose proof (flatten_step_sized _ _ _ _ _ _ Hb Hstep) as Hb1.
    apply (flatten_step_run py) in Hstep. destruct Hstep as (_ & N & _).
    rewrite <- N in Hb1 |- *. eapply IH; eauto.
Qed.

Lemma flatten_start_count ign w nact nz ig w1 :
  flatten_start py ign w = (Ok (nact, nz, ig), w1) ->
  nact = numActuators (dev w1) /\ 0 <= nact.
Proof.
  unfold flatten_start. intros H.
  apply bind_inv_ok in H. destruct H as [w0 [w0' [_ H]]].
  destruct (roi (dev w0)); [|discriminate].
  apply bind_inv_ok in H. destruct H as [u [wa [_ H]]].
  apply bind_inv_ok in H. destruct H as [wb [wc [Hget H]]].
  unfold get in Hget. injection Hget as <- <-.
  destruct (dev_controlMatrix (dev wa)) as [cm|]; [|discriminate].
  destruct (shape2 cm) as [na nz'] eqn:Es.
  destruct (Z.eqb_spec na (numActuators (dev wa))) as [E|E]; [|discriminate].
  apply shape2_nonneg in Es.
  destruct ign as [zi|]; [|destruct py; [|discriminate]];
    unfold ret in H; injection H as <- _ _ <-; split; auto; lia.
Qed.

Lemma flatten_first_sized nact nz w b0 w' :
  0 <= nact -> flatten_first py nact nz w = (Ok b0, w') -> sized nact b0.
Proof.
  unfold flatten_first. intros Hn H.
  apply bind_inv_ok in H. destruct H as [flat [w1 [Hsend H]]].
  apply bind_inv_ok in H. destruct H as [i [w2 [_ H]]].
  apply bind_inv_ok in H. destruct H as [u [w3 [_ H]]].
  unfold ret in H. injection H as <- _.
  rewrite send_ok in Hsend. injection Hsend as <- _.
  unfold sized. cbn [best_flat_actuators]. split; [|apply Forall_clamp01].
  rewrite !zlength_map. unfold np_zeros. rewrite zlength_repeat. lia.
Qed.

(** X5.  The vector [flatten_phase] returns has one entry for each actuator of
    the device, none of them above 1 or below 0, and it is the pattern the
    mirror was given last. *)
Theorem flatten_phase_result (iterations : Z) (ign : option vec)
    (w w' : world) (flat : vec)
    (Hrun : flatten_phase py iterations ign w = (Ok flat, w')) :
  zlength flat = numActuators (dev w) /\
  Forall in_unit_range flat /\
  hd_error (mirror w') = Some flat.
Proof.
  unfold flatten_phase in Hrun.
  apply bind_inv_ok in Hrun. destruct Hrun as [[[nact nz] ig] [w1 [Hstart H]]].
  apply bind_inv_ok in H. destruct H as [b0 [w2 [Hfirst H]]].
  apply bind_inv_ok in H. destruct H as [b [w3 [Hloop H]]].
  rewrite send_ok in H. injection H as <- <-.
  destruct (flatten_start_count _ _ _ _ _ _ Hstart) as [Hn Hpos].
  pose proof (flatten_first_sized _ _ _ _ _ Hpos Hfirst) as Hb0.
  apply (flatten_start_run py) in Hstart. destruct Hstart as (_ & N1 & _).
  apply (flatten_first_run py) in Hfirst. destruct Hfirst as (_ & N2 & _).
  assert (Hb : sized (numActuators (dev w2)) b).
  { eapply flatten_loop_sized; [|exact Hloop]. now rewrite N2, <- Hn. }
  destruct Hb as [Hl Hf]. cbn [mirror hd_error].
  split; [|split; [apply Forall_clamp01|reflexivity]].
  rewrite zlength_map. congruence.
Qed.

End MirrorPatterns.

Lemma flatten_phase_run_witness :
  device_run one_actuator_world
    (snd (flatten_phase (lib := sim) (hw := sim_camera) Python3 1
            (Some [1%float]) one_actuator_world)).
Proof.
  eapply (flatten_phase_run (lib := sim) (hw := sim_camera) Python3 1
            (Some [1%float])).
  apply surjective_pairing.
Defined.

Lemma measure_zernike_quiet_witness :
  quiet_run one_actuator_world
    (snd (measure_zernike (lib := sim) (hw := sim_camera) Python3 1
            one_actuator_world)).
Proof.
  eapply (measure_zernike_quiet (lib := sim) (hw := sim_camera) Python3 1).
  apply surjective_pairing.
Defined.

Lemma flatten_phase_result_witness :
  exists w',
    flatten_phase (lib := sim) (hw := sim_camera) Python3 1 (Some [1%float])
      one_actuator_world = (Ok [0.25%float], w') /\
    zlength [0.25%float] = numActuators (dev one_actuator_world) /\
    Forall in_unit_range [0.25%float] /\
    hd_error (mirror w') = Some [0.25%float].
Proof.
  eexists. split; [vm_compute; reflexivity|].
  apply (flatten_phase_result (lib := sim) (hw := sim_camera) Python3 1
           (Some [1%float]) one_actuator_world).
  vm_compute. reflexivity.
Defined.

(** ** The region of interest and the frames *)

Section RegionOfInterest.
Context {lib : Numerics} {hw : Hardware}.
Variable py : dialect.

(** X8.  Once a region of interest is selected [set_fourierfilter] never raises:
    it returns the filter the device holds afterwards.  When
    [make_fft_filter] succeeded that is the new filter; when it raised, the
    exception is dropped and the device's filter is the one it had.  Either
    way [aoAlg] is as [make_fft_filter] left it. *)
Theorem set_fourierfilter_never_raises (image : array2) (region : option Z)
    (w : world) (r0 : Z * Z * Z) (Hroi : roi (dev w) = Some r0) :
  exists w',
    set_fourierfilter py image region w = (Ok (dev_fft_filter (dev w')), w') /\
    mirror w' = mirror w /\ frames w' = frames w /\
    match make_fft_filter py image region (aoAlg w) with
    | (Ok f, a) => dev_fft_filter (dev w') = Some f /\ aoAlg w' = a
    | (Raise _, a) =>
        dev_fft_filter (dev w') = dev_fft_filter (dev w) /\ aoAlg w' = a
    end.
Proof.
  unfold set_fourierfilter, bind, get. rewrite Hroi. unfold call_aoAlg.
  destruct (make_fft_filter py image region (aoAlg w)) as [[f|e] a].
  - exists (set_dev (set_dev_fft_filter (Some f))
              (mkWorld a (dev w) (mirror w) (frames w))).
    cbn. auto.
  - exists (mkWorld a (dev w) (mirror w) (frames w)). cbn. auto.
Qed.

(** X9.  [set_roi] takes a negative radius without complaint.  The
    [arange] of [make_mask] is empty and [reshape] reads the negative
    diameter as the dimension to infer, so the region is recorded with an
    empty mask, held by the device and by [aoAlg], and the filter of the
    device is erased.  From then on [acquire] raises [ValueError], at the
    [np.zeros] of line 236, as soon as the camera has delivered its
    frame. *)
Theorem set_roi_negative_radius (w : world) (y0 x0 radius : Z)
    (Hr : radius < 0) :
  exists w',
    set_roi y0 x0 radius w = (Ok tt, w') /\
    roi (dev w') = Some (y0, x0, radius) /\
    dev_mask (dev w') = Some [] /\
    mask (aoAlg w') = Some [] /\
    dev_fft_filter (dev w') = None /\
    mirror w' = mirror w /\ frames w' = frames w /\
    forall data_raw, camera (frames w) (mirror w) = Ok data_raw ->
      acquire w' =
      (Raise ValueError,
       mkWorld (aoAlg w') (dev w') (mirror w') (S (frames w'))).
Proof.
  assert (Hdisk : disk radius = []).
  { unfold disk, arange.
    replace (Z.to_nat (radius - - radius)) with 0%nat by lia. reflexivity. }
  eexists. split.
  - unfold set_roi, bind, modify, call_aoAlg, make_mask, ret. cbn.
    rewrite Hdisk. reflexivity.
  - cbn. repeat split.
    intros data_raw Hcam.
    unfold acquire, bind, get, modify, lift. cbn. rewrite Hcam.
    destruct (Z.ltb_spec radius 0); [reflexivity|lia].
Qed.

(** X10.  [acquire] does not pad.  When the rows of the region of interest
    (radius at least 1) start at a non-negative index and run past the last
    row of the frame, the case of exactly one row left apart, the
    assignment of line 237 raises [ValueError]: the frame is spent and
    nothing else changes. *)
Theorem acquire_window_outside_frame (w : world) (y0 x0 r : Z)
    (data_raw : array2) (s0 s1 : Z)
    (Hroi : roi (dev w) = Some (y0, x0, r))
    (Hcam : camera (frames w) (mirror w) = Ok data_raw)
    (Hshape : shape2 data_raw = (s0, s1))
    (Hr : 1 <= r) (Htop : 0 <= y0 - r) (Hout : s0 < y0 + r)
    (Hone : y0 - r <> s0 - 1) :
  acquire w =
  (Raise ValueError, mkWorld (aoAlg w) (dev w) (mirror w) (S (frames w))).
Proof.
  pose proof (shape2_nonneg _ _ _ Hshape) as [Hs0 Hs1].
  unfold acquire, bind, get, modify, lift. cbn [aoAlg dev mirror frames].
  rewrite Hcam, Hroi.
  destruct (Z.ltb_spec r 0); [lia|]. rewrite Hshape.
  unfold paste2. rewrite shape2_np_zeros2 by lia.
  assert (Hd : broadcastable (slice_len s0 (y0 - r) (y0 + r))
                             (slice_len (2 * r) 0 (2 * r)) = false).
  { unfold broadcastable, slice_len.
    rewrite (slice_bound_pos s0 (y0 + r)), (slice_bound_pos s0 (y0 - r)),
            (slice_bound_pos (2 * r) (2 * r)), (slice_bound_pos (2 * r) 0)
      by lia.
    apply orb_false_iff. split; apply Z.eqb_neq; lia. }
  rewrite Hd. reflexivity.
Qed.

(** X12.  Before a region of interest is selected, [set_fourierfilter],
    [phaseunwrap], [acquire_unwrapped_phase], [measure_zernike] and
    [flatten_phase] all raise the exception with the message of line 252
    and leave the process as it was: no frame is taken and nothing is sent
    to the mirror. *)
Theorem no_roi_no_measurement (w : world) (image : array2) (region : option Z)
    (n iterations : Z) (ign : option vec) (Hroi : roi (dev w) = None) :
  set_fourierfilter py image region w = (Raise (Exception roi_message), w) /\
  phaseunwrap py image w = (Raise (Exception roi_message), w) /\
  acquire_unwrapped_phase py w = (Raise (Exception roi_message), w) /\
  measure_zernike py n w = (Raise (Exception roi_message), w) /\
  flatten_phase py iterations ign w = (Raise (Exception roi_message), w).
Proof.
  unfold measure_zernike, flatten_phase, flatten_start, acquire_unwrapped_phase,
    phaseunwrap, set_fourierfilter, bind, get.
  rewrite Hroi. repeat split.
Qed.

End RegionOfInterest.

Lemma set_fourierfilter_never_raises_witness :
  exists w',
    set_fourierfilter (lib := sim) Python3 [[1%float; 1%float]; [1%float; 1%float]]
      None one_actuator_world = (Ok (dev_fft_filter (dev w')), w') /\
    mirror w' = mirror one_actuator_world /\
    frames w' = frames one_actuator_world /\
    match make_fft_filter (lib := sim) Python3
            [[1%float; 1%float]; [1%float; 1%float]] None
            (aoAlg one_actuator_world) with
    | (Ok f, a) => dev_fft_filter (dev w') = Some f /\ aoAlg w' = a
    | (Raise _, a) =>
        dev_fft_filter (dev w') = dev_fft_filter (dev one_actuator_world) /\
        aoAlg w' = a
    end.
Proof.
  apply (set_fourierfilter_never_raises (lib := sim) Python3
           [[1%float; 1%float]; [1%float; 1%float]] None one_actuator_world
           (1, 1, 1)).
  reflexivity.
Defined.

Lemma set_roi_negative_radius_witness :
  exists w',
    set_roi 1 1 (-1) one_actuator_world = (Ok tt, w') /\
    roi (dev w') = Some (1, 1, -1) /\
    dev_mask (dev w') = Some [] /\
    mask (aoAlg w') = Some [] /\
    dev_fft_filter (dev w') = None /\
    mirror w' = mirror one_actuator_world /\
    frames w' = frames one_actuator_world /\
    forall data_raw,
      camera (Hardware := sim_camera) (frames one_actuator_world)
        (mirror one_actuator_world) = Ok data_raw ->
      acquire (hw := sim_camera) w' =
      (Raise ValueError,
       mkWorld (aoAlg w') (dev w') (mirror w') (S (frames w'))).
Proof.
  apply (set_roi_negative_radius (hw := sim_camera)
           one_actuator_world 1 1 (-1)).
  lia.
Defined.

(** The 2 by 2 frame of the simulated camera and a region of radius 2
    centred on (2, 2): rows 0 to 4 are asked for and two exist. *)
Lemma acquire_window_outside_frame_witness :
  acquire (hw := sim_camera)
    (set_dev (set_roi_field (Some (2, 2, 2))) one_actuator_world) =
  (Raise ValueError,
   mkWorld (aoAlg one_actuator_world)
           (set_roi_field (Some (2, 2, 2)) (dev one_actuator_world)) [] 1).
Proof.
  apply (acquire_window_outside_frame (hw := sim_camera)
           (set_dev (set_roi_field (Some (2, 2, 2))) one_actuator_world)
           2 2 2 [[1%float; 1%float]; [1%float; 1%float]] 2 2);
    try reflexivity; lia.
Defined.

Lemma no_roi_no_measurement_witness :
  let w := set_dev (set_roi_field None) one_actuator_world in
  set_fourierfilter (lib := sim) Python3 [[1%float]] None w
    = (Raise (Exception roi_message), w) /\
  phaseunwrap (lib := sim) Python3 [[1%float]] w
    = (Raise (Exception roi_message), w) /\
  acquire_unwrapped_phase (lib := sim) (hw := sim_camera) Python3 w
    = (Raise (Exception roi_message), w) /\
  measure_zernike (lib := sim) (hw := sim_camera) Python3 1 w
    = (Raise (Exception roi_message), w) /\
  flatten_phase (lib := sim) (hw := sim_camera) Python3 1 None w
    = (Raise (Exception roi_message), w).
Proof.
  apply (no_roi_no_measurement (lib := sim) (hw := sim_camera) Python3
           (set_dev (set_roi_field None) one_actuator_world) [[1%float]] None
           1 1 None).
  reflexivity.
Defined.

(** ** The sensorless estimator under Python 3 *)

(** X17.  Under Python 3 [get_zernike_modes_sensorless] returns on no input: with
    no mode selected line 407 divides by zero, and otherwise [numMes] is a
    float, which the slice of line 411 refuses in the first round. *)
Theorem get_zernike_modes_sensorless_python3 {lib : Numerics}
    (full_image_stack : list array2) (full_zernike_applied : array2)
    (nollZernike : list Z) (num_segs : Z) :
  get_zernike_modes_sensorless Python3 full_image_stack full_zernike_applied
    nollZernike num_segs
  = Raise (if zlength nollZernike =? 0 then ZeroDivisionError else TypeError).
Proof.
  unfold get_zernike_modes_sensorless.
  destruct (Z.eqb_spec (zlength nollZernike) 0) as [E|E]; [reflexivity|].
  assert (0 < zlength nollZernike) by (unfold zlength in *; lia).
  rewrite arange_cons by lia. reflexivity.
Qed.

Lemma get_zernike_modes_sensorless_python3_witness :
  get_zernike_modes_sensorless (lib := sim) Python3
    [[[1%float]]] [[1%float]] [1] 2 = Raise TypeError.
Proof.
  apply (get_zernike_modes_sensorless_python3 (lib := sim)
           [[[1%float]]] [[1%float]] [1] 2).
Defined.

(** ** measure_fourier_metric: the images it takes *)

Lemma shape2_make_ring_mask size inner outer :
  shape2 (make_ring_mask size inner outer) =
  (Z.max 0 (2 * (fst size / 2)), Z.max 0 (2 * (fst size / 2))).
Proof.
  unfold shape2, make_ring_mask. rewrite zlength_map, arange_length.
  set (radius := fst size / 2).
  replace (radius - - radius) with (2 * radius) by lia.
  f_equal.
  pose proof (arange_length (- radius) radius) as Hl.
  replace (radius - - radius) with (2 * radius) in Hl by lia.
  destruct (arange (- radius) radius) as [|a l].
  - exact Hl.
  - unfold zlength in *. cbn [map length] in *. rewrite length_map. exact Hl.
Qed.

Lemma np_linspace_ok start stop num :
  0 <= num -> exists radii, np_linspace start stop num = Ok radii.
Proof.
  intros H. unfold np_linspace. destruct (Z.ltb_spec num 0); [lia|].
  now eexists.
Qed.

Lemma zth_some {A} (l : list A) i :
  0 <= i < zlength l -> exists x, zth l i = Some x.
Proof.
  unfold zth, zlength. intros H. destruct (Z.ltb_spec i 0); [lia|].
  destruct (nth_error l (Z.to_nat i)) eqn:E; [now eexists|].
  apply nth_error_None in E. lia.
Qed.

Section FourierMetricShape.
Context {lib : Numerics}.
Variable py : dialect.

(** X16.  [measure_fourier_metric] refuses a square image of odd side.
    The ring mask of line 371 has [2 * (side // 2)] rows and columns, one
    less than the power spectrum, and with two segments or more the
    selection of line 372 raises [IndexError] on the first ring. *)
Theorem measure_fourier_metric_odd_side (image : array2)
    (num_segs : Z) (wavelength NA pixel_size : float) (sq : array2)
    (s0 : Z)
    (Hshape : shape2 image = (s0, s0))
    (Hps : power_spectrum image = Ok sq)
    (Hsq : shape2 sq = (s0, s0))
    (Hsegs : 2 <= num_segs)
    (Hodd : Z.odd s0 = true) :
  measure_fourier_metric py image num_segs wavelength NA pixel_size
  = Raise IndexError.
Proof.
  pose proof (shape2_nonneg _ _ _ Hshape) as [Hs0 _].
  unfold measure_fourier_metric, RMS_metrics. rewrite Hps. cbn [rbind].
  destruct (np_linspace_ok
              (PrimFloat.mul 0.1 (OTF_outer_rad py (fst (shape2 image))
                                    wavelength NA pixel_size))
              (OTF_outer_rad py (fst (shape2 image)) wavelength NA pixel_size)
              (num_segs + 1)) as [radii Hr]; [lia|].
  rewrite Hr. cbn [rbind].
  apply np_linspace_length in Hr.
  rewrite arange_cons by lia. cbn [ring_metrics]. unfold ring_metric.
  destruct (zth_some radii 0) as [r0 ->]; [lia|].
  destruct (zth_some radii (0 + 1)) as [r1 ->]; [lia|].
  unfold select_masked. rewrite Hsq, shape2_make_ring_mask, Hshape.
  cbn [fst].
  assert (Hne : (s0 =? Z.max 0 (2 * (s0 / 2))) = false).
  { apply Z.eqb_neq. apply Z.odd_spec in Hodd. destruct Hodd as [m Hm]. lia. }
  rewrite Hne. reflexivity.
Qed.

End FourierMetricShape.

(** A 3 by 3 image. *)
Lemma measure_fourier_metric_odd_side_witness :
  measure_fourier_metric (lib := sim) Python3 (peak_image 3 1 1) 2
    default_wavelength default_NA default_pixel_size = Raise IndexError.
Proof.
  apply (measure_fourier_metric_odd_side (lib := sim) Python3
           (peak_image 3 1 1) 2 default_wavelength default_NA
           default_pixel_size (peak_image 3 1 1) 3).
  - reflexivity.
  - reflexivity.
  - reflexivity.
  - lia.
  - reflexivity.
Defined.

(** ** create_control_matrix: the matrix that is inverted *)

Lemma nth_error_mapi_from {A B} (f : Z -> A -> B) i l k :
  nth_error (mapi_from f i l) k =
  option_map (f (i + Z.of_nat k)) (nth_error l k).
Proof.
  revert i k. induction l as [|x l IH]; intros i [|k]; cbn [mapi_from nth_error option_map];
    try reflexivity.
  - now rewrite Z.add_0_r.
  - rewrite IH. do 2 f_equal. lia.
Qed.

Lemma nth_error_map2 {A B C} (f : A -> B -> C) l m k :
  nth_error (map2 f l m) k =
  match nth_error l k, nth_error m k with
  | Some a, Some b => Some (f a b)
  | _, _ => None
  end.
Proof.
  revert m k. induction l as [|x l IH]; intros [|y m] [|k]; cbn [map2 nth_error];
    try reflexivity.
  - now destruct (nth_error l k).
  - apply IH.
Qed.

Lemma nth_error_set_nth_same {A} (l : list A) k x :
  (k < length l)%nat -> nth_error (set_nth l k x) k = Some x.
Proof.
  revert k. induction l as [|h l IH]; intros [|k] H; cbn in *; try lia.
  - reflexivity.
  - apply IH. lia.
Qed.

Lemma column_np_zeros2 nz na k :
  0 <= k < na ->
  column (np_zeros2 nz na) (Z.to_nat k) = repeat (Some 0%float) (Z.to_nat nz).
Proof.
  intros H. unfold column, np_zeros2, np_zeros.
  induction (Z.to_nat nz) as [|n IH]; cbn [repeat map]; [reflexivity|].
  rewrite IH. f_equal. apply nth_error_repeat. lia.
Qed.

Section ControlMatrix.
Context {lib : Numerics}.

Lemma actuator_step_rows s stack x y nz pokes pupil cal ii cal' :
  length (slopes cal) = length (C_mat cal) ->
  actuator_step s stack x y nz pokes pupil cal ii = Ok cal' ->
  length (C_mat cal') = length (C_mat cal).
Proof.
  intros Hlen Hstep. unfold actuator_step in Hstep.
  destruct (zth pupil ii) as [inc|]; [|discriminate].
  destruct (PrimFloat.eqb inc 1).
  - destruct (poke_samples _ _ _ _ _ _ _ _) as [samples|e]; [|discriminate].
    cbn [rbind] in Hstep. destruct (zlength samples <? 2); [discriminate|].
    injection Hstep as <-. cbn [C_mat slopes].
    unfold set_column. apply length_map2. now rewrite length_fit_slopes.
  - now injection Hstep as <-.
Qed.

(** The loop keeps the number of rows, and the column of an actuator that
    is left out. *)
Lemma actuator_loop_left_out s stack x y nz pokes pupil l cal cal' :
  length (slopes cal) = length (C_mat cal) ->
  actuator_loop s stack x y nz pokes pupil cal l = Ok cal' ->
  (forall j, In j l -> 0 <= j) ->
  length (C_mat cal') = length (C_mat cal) /\
  forall k inc, 0 <= k -> zth pupil k = Some inc ->
    PrimFloat.eqb inc 1 = false ->
    column (C_mat cal') (Z.to_nat k) = column (C_mat cal) (Z.to_nat k).
Proof.
  revert cal. induction l as [|ii l IH]; intros cal Hlen Hloop Hl;
    simpl in Hloop.
  - injection Hloop as <-. now split.
  - destruct (actuator_step s stack x y nz pokes pupil cal ii) as [cal1|e] eqn:E;
      [|discriminate].
    cbn [rbind] in Hloop.
    pose proof (actuator_step_lengths _ _ _ _ _ _ _ _ _ _ Hlen E) as Hlen1.
    pose proof (actuator_step_rows _ _ _ _ _ _ _ _ _ _ Hlen E) as Hrows1.
    destruct (IH cal1 Hlen1 Hloop) as [Hrows Hcols].
    { intros j Hj. apply Hl. now right. }
    split; [congruence|].
    intros k inc Hk Hinc Hout. rewrite (Hcols k inc Hk Hinc Hout).
    assert (Hii : 0 <= ii) by (apply Hl; now left).
    destruct (Z.eq_dec ii k) as [->|Hne].
    + unfold actuator_step in E. rewrite Hinc, Hout in E.
      now injection E as <-.
    + eapply actuator_step_columns; eauto. lia.
Qed.

(** X14.  When [create_control_matrix] returns, the matrix it returns is the one
    it has stored, nothing else of the object having changed, and it is the
    pseudo-inverse of a matrix of [noZernikeModes] rows in which the column
    of every actuator left out of the pupil holds zeros only. *)
Theorem create_control_matrix_stores_pinv
    (s s' : AdaptiveOpticsFunctions) (imageStack : list array2)
    (numActuators noZernikeModes : Z) (pokeSteps : vec)
    (pupil_ac : option vec) (threshold : float) (cm : array2)
    (Hrun : create_control_matrix imageStack numActuators noZernikeModes
              pokeSteps pupil_ac threshold s = (Ok cm, s')) :
  s' = set_alg_controlMatrix (Some cm) s /\
  exists C,
    np_linalg_pinv C threshold = Ok cm /\
    zlength C = noZernikeModes /\
    forall k inc, 0 <= k < numActuators ->
      zth (match pupil_ac with
           | None => repeat 1%float (Z.to_nat numActuators)
           | Some p => p
           end) k = Some inc ->
      PrimFloat.eqb inc 1 = false ->
      column C (Z.to_nat k) = repeat (Some 0%float) (Z.to_nat noZernikeModes).
Proof.
  unfold create_control_matrix in Hrun.
  apply bind_inv_ok in Hrun. destruct Hrun as [s0 [s1 [Hget H]]].
  unfold get in Hget. injection Hget as <- <-.
  apply bind_inv_ok in H. destruct H as [[[[pupil x] y] cal0] [s1 [Hstart H]]].
  unfold lift in Hstart. injection Hstart as Hstart <-.
  apply bind_inv_ok in H. destruct H as [cal [s1 [Hloop H]]].
  unfold lift in Hloop. injection Hloop as Hloop <-.
  apply bind_inv_ok in H. destruct H as [cm' [s1 [Hpinv H]]].
  unfold lift in Hpinv. injection Hpinv as Hpinv <-.
  apply bind_inv_ok in H. destruct H as [u [s1 [Hmod H]]].
  unfold modify in Hmod. injection Hmod as _ <-.
  unfold ret in H. injection H as <- <-.
  split; [reflexivity|]. exists (C_mat cal). split; [exact Hpinv|].
  pose proof (calibration_start_lengths _ _ _ _ _ _ _ _ Hstart) as Hlen0.
  destruct (actuator_loop_left_out _ _ _ _ _ _ _ _ _ _ Hlen0 Hloop)
    as [Hrows Hcols].
  { intros j Hj. apply in_arange in Hj. lia. }
  unfold calibration_start in Hstart.
  destruct (match pupil_ac with None => numActuators <? 0 | Some _ => false end);
    [discriminate|].
  destruct (Z.ltb_spec noZernikeModes 0) as [|Hnz]; [discriminate|].
  destruct (Z.ltb_spec numActuators 0) as [|Hna]; [discriminate|].
  cbn [orb] in Hstart.
  destruct (match imageStack with [] => (0, 0) | image :: _ => shape2 image end)
    as [x' y'].
  destruct (x' =? y'); [|discriminate].
  injection Hstart as <- _ _ <-. cbn [C_mat slopes] in *.
  split.
  - unfold zlength. rewrite Hrows. unfold np_zeros2.
    rewrite repeat_length. lia.
  - intros k inc Hk Hinc Hout.
    rewrite (Hcols k inc (proj1 Hk) Hinc Hout).
    now apply column_np_zeros2.
Qed.

(** X15.  In the turn of an included actuator [ii] with two samples or more, the
    entry of column [ii] for mode [kk] is the slope [linregress] returns;
    when [linregress] raises, the exception is printed and the entry is the
    value that [slopes] held for that mode when the turn began, left there
    by an earlier actuator.  [slopes] holds the same entry afterwards. *)
Theorem actuator_step_failed_fit_keeps_slope
    (s : AdaptiveOpticsFunctions) (imageStack : list array2) (x y : Z)
    (noZernikeModes : Z) (pokeSteps pupil_ac : vec) (cal : calibration)
    (ii kk : Z) (inc old : float) (samples : list (float * vec)) (row : vec)
    (Hinc : zth pupil_ac ii = Some inc)
    (Hin : PrimFloat.eqb inc 1 = true)
    (Hsamples : poke_samples s imageStack x y noZernikeModes
                  (zlength pokeSteps) ii
                  (combine (arange 0 (zlength pokeSteps)) pokeSteps) = Ok samples)
    (Htwo : 2 <= zlength samples)
    (Hold : zth (slopes cal) kk = Some old)
    (Hrow : zth (C_mat cal) kk = Some row)
    (Hii : 0 <= ii < zlength row) :
  exists cal',
    actuator_step s imageStack x y noZernikeModes pokeSteps pupil_ac cal ii
      = Ok cal' /\
    let fitted :=
      match linregress (map fst samples)
              (map (fun z => nth (Z.to_nat kk) (snd z) 0%float) samples) with
      | Ok (slope, _, _, _, _) => slope
      | Raise _ => old
      end in
    zth (slopes cal') kk = Some fitted /\
    at2 (C_mat cal') kk ii = Some fitted.
Proof.
  unfold actuator_step. rewrite Hinc, Hin, Hsamples. cbn [rbind].
  destruct (Z.ltb_spec (zlength samples) 2); [lia|].
  eexists. split; [reflexivity|]. cbn [slopes C_mat].
  unfold zth in Hold, Hrow, Hii.
  destruct (Z.ltb_spec kk 0) as [|Hkk]; [discriminate|].
  assert (Hfit : nth_error (fit_slopes samples (slopes cal)) (Z.to_nat kk) =
                 Some match linregress (map fst samples)
                              (map (fun z => nth (Z.to_nat kk) (snd z) 0%float)
                                   samples) with
                      | Ok (slope, _, _, _, _) => slope
                      | Raise _ => old
                      end).
  { unfold fit_slopes, mapi. rewrite nth_error_mapi_from, Hold.
    cbn [option_map]. rewrite Z.add_0_l, Z2Nat.id by lia. reflexivity. }
  split.
  - unfold zth. destruct (Z.ltb_spec kk 0); [lia|]. exact Hfit.
  - unfold at2, zth. destruct (Z.ltb_spec kk 0); [lia|].
    unfold set_column. rewrite nth_error_map2, Hrow, Hfit.
    destruct (Z.ltb_spec ii 0); [lia|].
    apply nth_error_set_nth_same. unfold zlength in Hii. lia.
Qed.

End ControlMatrix.

(** Two actuators, the second left out of the pupil: its column of the
    matrix that is inverted is zero. *)
Lemma create_control_matrix_stores_pinv_witness :
  exists cm s',
    create_control_matrix (lib := sim) dark_stack 2 1 [0.25%float; 0.75%float]
      (Some [1%float; 0%float]) 0.005%float alg_init = (Ok cm, s') /\
    s' = set_alg_controlMatrix (Some cm) alg_init /\
    exists C,
      np_linalg_pinv (Numerics := sim) C 0.005%float = Ok cm /\
      zlength C = 1 /\
      forall k inc, 0 <= k < 2 ->
        zth [1%float; 0%float] k = Some inc ->
        PrimFloat.eqb inc 1 = false ->
        column C (Z.to_nat k) = repeat (Some 0%float) (Z.to_nat 1).
Proof.
  eexists. eexists. split; [vm_compute; reflexivity|].
  apply (create_control_matrix_stores_pinv (lib := sim) alg_init _ dark_stack
           2 1 [0.25%float; 0.75%float] (Some [1%float; 0%float]) 0.005%float).
  vm_compute. reflexivity.
Defined.

(** The regression fails for the second actuator: its column receives the
    slope 0.5 left in [slopes] by the first. *)
Lemma actuator_step_failed_fit_keeps_slope_witness :
  exists cal',
    actuator_step (lib := sim_no_fit) alg_init dark_stack 2 2 1
      [0.25%float; 0.75%float] [1%float; 1%float]
      (mkCal [0.5%float] [[0.5%float; 0%float]]) 1 = Ok cal' /\
    zth (slopes cal') 0 = Some 0.5%float /\
    at2 (C_mat cal') 0 1 = Some 0.5%float.
Proof.
  apply (actuator_step_failed_fit_keeps_slope (lib := sim_no_fit) alg_init
           dark_stack 2 2 1 [0.25%float; 0.75%float] [1%float; 1%float]
           (mkCal [0.5%float] [[0.5%float; 0%float]]) 1 0 1%float 0.5%float
           [(0.25%float, [0.25%float]); (0.75%float, [0.25%float])]
           [0.5%float; 0%float]).
  - reflexivity.
  - reflexivity.
  - vm_compute. reflexivity.
  - unfold zlength. cbn. lia.
  - reflexivity.
  - reflexivity.
  - unfold zlength. cbn. lia.
Defined.

(** ** acquire: the crop and the mask *)

Lemma zth_mapi {A B} (f : Z -> A -> B) l i :
  0 <= i -> zth (mapi f l) i = option_map (f i) (zth l i).
Proof.
  intros H. unfold zth, mapi. destruct (Z.ltb_spec i 0); [lia|].
  rewrite nth_error_mapi_from. rewrite Z.add_0_l, Z2Nat.id by lia. reflexivity.
Qed.

Lemma zth_map2 {A B C} (f : A -> B -> C) l m i :
  zth (map2 f l m) i =
  match zth l i, zth m i with
  | Some a, Some b => Some (f a b)
  | _, _ => None
  end.
Proof. unfold zth. destruct (i <? 0); [reflexivity|]. apply nth_error_map2. Qed.

Lemma zth_In {A} (l : list A) i x : zth l i = Some x -> In x l.
Proof.
  unfold zth. destruct (i <? 0); [discriminate|]. apply nth_error_In.
Qed.

Lemma zth_py_slice {A} (l : list A) a b i :
  0 <= a -> a <= b <= zlength l -> 0 <= i < b - a ->
  zth (py_slice l a b) i = zth l (a + i).
Proof.
  intros Ha Hb Hi. unfold py_slice, slice_len. rewrite !slice_bound_in by lia.
  unfold zth. destruct (Z.ltb_spec i 0); [lia|].
  destruct (Z.ltb_spec (a + i) 0); [lia|].
  rewrite nth_error_firstn.
  destruct (Nat.ltb_spec (Z.to_nat i) (Z.to_nat (Z.max 0 (b - a)))); [|lia].
  rewrite nth_error_skipn. f_equal. lia.
Qed.

Lemma zlength_py_slice {A} (l : list A) a b :
  0 <= a -> a <= b <= zlength l -> zlength (py_slice l a b) = b - a.
Proof.
  intros Ha Hb. unfold py_slice, slice_len. rewrite !slice_bound_in by lia.
  unfold zlength in *. rewrite length_firstn, length_skipn. lia.
Qed.

Lemma zth_np_zeros2 n m i :
  0 <= i < n -> zth (np_zeros2 n m) i = Some (np_zeros m).
Proof.
  intros H. unfold zth, np_zeros2. destruct (Z.ltb_spec i 0); [lia|].
  apply nth_error_repeat. lia.
Qed.

Lemma bcast_nth_zth {A} (l : list A) k :
  2 <= zlength l -> bcast_nth l k = zth l k.
Proof.
  destruct l as [|x [|y l]]; unfold zlength; cbn [length]; try lia.
  reflexivity.
Qed.

Lemma zlength_mapi {A B} (f : Z -> A -> B) l : zlength (mapi f l) = zlength l.
Proof. unfold zlength, mapi. now rewrite length_mapi_from. Qed.

Section Crop.
Context {hw : Hardware}.

(** X11.  With a region of interest of radius [r >= 1] that lies inside the
    frame, and a mask of [2r] by [2r] held by the device, [acquire] spends
    one frame, changes nothing else, and returns the [2r] rows of the crop:
    entry [(i, j)] is the pixel [(y0 - r + i, x0 - r + j)] of the frame,
    multiplied by 1 where the mask holds and by 0 where it does not. *)
Theorem acquire_crops_and_masks (w : world) (y0 x0 r : Z)
    (data_raw : array2) (s0 s1 : Z) (m : bmask)
    (Hroi : roi (dev w) = Some (y0, x0, r))
    (Hcam : camera (frames w) (mirror w) = Ok data_raw)
    (Hs0 : zlength data_raw = s0)
    (Hrect : forall row, In row data_raw -> zlength row = s1)
    (Hr : 1 <= r)
    (Hy : r <= y0 /\ y0 + r <= s0)
    (Hx : r <= x0 /\ x0 + r <= s1)
    (Hmask : dev_mask (dev w) = Some m)
    (Hm : zlength m = 2 * r)
    (Hmrect : forall row, In row m -> zlength row = 2 * r) :
  exists data,
    acquire w =
      (Ok data, mkWorld (aoAlg w) (dev w) (mirror w) (S (frames w))) /\
    zlength data = 2 * r /\
    forall i j, 0 <= i < 2 * r -> 0 <= j < 2 * r ->
      exists v b,
        at2 data_raw (y0 - r + i) (x0 - r + j) = Some v /\
        at2 m i j = Some b /\
        at2 data i j =
          Some (if b then PrimFloat.mul v 1 else PrimFloat.mul v 0).
Proof.
  assert (Hshape : shape2 data_raw = (s0, s1)).
  { unfold shape2. rewrite Hs0. f_equal.
    destruct data_raw as [|row0 rest];
      [unfold zlength in Hs0; cbn [length] in Hs0; lia|].
    apply Hrect. now left. }
  assert (Hmshape : shape2 m = (2 * r, 2 * r)).
  { unfold shape2. rewrite Hm. f_equal.
    destruct m as [|row0 rest]; [unfold zlength in Hm; cbn [length] in Hm; lia|].
    apply Hmrect. now left. }
  unfold acquire, bind, get, modify, lift. cbn [aoAlg dev mirror frames].
  rewrite Hcam, Hroi. destruct (Z.ltb_spec r 0); [lia|].
  rewrite Hshape. unfold paste2. rewrite shape2_np_zeros2 by lia.
  assert (Hl0 : slice_len s0 (y0 - r) (y0 + r) = 2 * r)
    by (unfold slice_len; rewrite !slice_bound_in by lia; lia).
  assert (Hl1 : slice_len s1 (x0 - r) (x0 + r) = 2 * r)
    by (unfold slice_len; rewrite !slice_bound_in by lia; lia).
  assert (Hl2 : slice_len (2 * r) 0 (2 * r) = 2 * r)
    by (unfold slice_len; rewrite !slice_bound_in by lia; lia).
  rewrite Hl0, Hl1, Hl2. unfold broadcastable. rewrite Z.eqb_refl.
  cbn [orb andb]. rewrite Hmask.
  rewrite !slice_bound_in by lia.
  match goal with
  | |- context [mul_mask ?c m] => set (cropped := c)
  end.
  assert (Hrows : forall i, 0 <= i < 2 * r ->
            exists row, zth cropped i = Some row /\ zlength row = 2 * r /\
              forall j, 0 <= j < 2 * r ->
                exists v, at2 data_raw (y0 - r + i) (x0 - r + j) = Some v /\
                          zth row j = Some v).
  { intros i Hi. unfold cropped.
    rewrite zth_mapi, zth_np_zeros2 by lia. cbn [option_map].
    destruct (Z.leb_spec 0 i); [|lia]. destruct (Z.ltb_spec i (2 * r)); [|lia].
    cbn [andb]. eexists. split; [reflexivity|].
    split; [rewrite zlength_mapi; unfold np_zeros; rewrite zlength_repeat; lia|].
    intros j Hj. rewrite zth_mapi, zth_np_zeros by lia. cbn [option_map].
    destruct (Z.leb_spec 0 j); [|lia]. destruct (Z.ltb_spec j (2 * r)); [|lia].
    cbn [andb]. rewrite !Z.sub_0_r.
    destruct (zth_some data_raw (y0 - r + i)) as [rowi Hrowi]; [lia|].
    pose proof (Hrect _ (zth_In _ _ _ Hrowi)) as Hlen.
    destruct (zth_some rowi (x0 - r + j)) as [v Hv]; [lia|].
    exists v. unfold at2. rewrite Hrowi. split; [exact Hv|].
    unfold slice2.
    rewrite bcast_nth_zth
      by (rewrite zlength_map, zlength_py_slice by lia; lia).
    rewrite zth_map, zth_py_slice, Hrowi by lia. cbn [option_map].
    rewrite bcast_nth_zth by (rewrite zlength_py_slice by lia; lia).
    rewrite zth_py_slice, Hv by lia. reflexivity. }
  assert (Hclen : zlength cropped = 2 * r).
  { unfold cropped. rewrite zlength_mapi. unfold np_zeros2.
    rewrite zlength_repeat. lia. }
  assert (Hcshape : shape2 cropped = (2 * r, 2 * r)).
  { unfold shape2. rewrite Hclen. f_equal.
    destruct (Hrows 0) as [row [Hrow [Hlen _]]]; [lia|].
    destruct cropped as [|c0 rest]; [discriminate|].
    cbn in Hrow. now injection Hrow as ->. }
  unfold mul_mask. rewrite Hcshape, Hmshape. cbn [fst snd].
  rewrite Z.eqb_refl. cbn [andb].
  eexists. split; [reflexivity|]. split.
  - rewrite zlength_map2; lia.
  - intros i j Hi Hj.
    destruct (Hrows i Hi) as [row [Hrow [Hlen Hent]]].
    destruct (Hent j Hj) as [v [Hv Hzv]].
    destruct (zth_some m i) as [mrow Hmrow]; [lia|].
    pose proof (Hmrect _ (zth_In _ _ _ Hmrow)) as Hmlen.
    destruct (zth_some mrow j) as [b Hb]; [lia|].
    exists v, b. split; [exact Hv|]. unfold at2.
    rewrite Hmrow. split; [exact Hb|].
    rewrite zth_map2, Hrow, Hmrow, zth_map2, Hzv, Hb. reflexivity.
Qed.

End Crop.

(** The region of radius 1 centred on (1, 1) of the 2 by 2 frame. *)
Lemma acquire_crops_and_masks_witness :
  exists data,
    acquire (hw := sim_camera) one_actuator_world =
      (Ok data,
       mkWorld (aoAlg one_actuator_world) (dev one_actuator_world)
               (mirror one_actuator_world) (S (frames one_actuator_world))) /\
    zlength data = 2 * 1 /\
    forall i j, 0 <= i < 2 * 1 -> 0 <= j < 2 * 1 ->
      exists v b,
        at2 [[1%float; 1%float]; [1%float; 1%float]] (1 - 1 + i) (1 - 1 + j)
          = Some v /\
        at2 [[false; false]; [false; true]] i j = Some b /\
        at2 data i j =
          Some (if b then PrimFloat.mul v 1 else PrimFloat.mul v 0).
Proof.
  apply (acquire_crops_and_masks (hw := sim_camera) one_actuator_world 1 1 1
           [[1%float; 1%float]; [1%float; 1%float]] 2 2
           [[false; false]; [false; true]]); try reflexivity; try lia.
  - intros row [<-|[<-|[]]]; reflexivity.
  - intros row [<-|[<-|[]]]; reflexivity.
Defined.

(** ** The sensorless estimator with too few measurements *)

Lemma py_slice_empty {A} (l : list A) : py_slice l 0 0 = [].
Proof.
  unfold py_slice, slice_len.
  rewrite !slice_bound_in by (unfold zlength; lia). reflexivity.
Qed.

(** X18.  Under Python 2, when the rows of [full_zernike_applied] are fewer than
    the selected modes, [numMes] is 0: the first block of images is empty
    and, the column of the first mode being in range,
    [find_zernike_amp_sensorless] reads [metric_measured] before any
    assignment, an [UnboundLocalError]. *)
Theorem get_zernike_modes_sensorless_too_few_rows {lib : Numerics}
    (full_image_stack : list array2) (full_zernike_applied : array2)
    (nollZernike : list Z) (num_segs n0 col : Z)
    (Hnoll : zth nollZernike 0 = Some n0)
    (Hcol : py_index (snd (shape2 full_zernike_applied)) (n0 - 1) = Some col)
    (Hfew : zlength full_zernike_applied < zlength nollZernike) :
  get_zernike_modes_sensorless Python2 full_image_stack full_zernike_applied
    nollZernike num_segs = Raise UnboundLocalError.
Proof.
  unfold get_zernike_modes_sensorless.
  assert (Hpos : 0 <= zlength full_zernike_applied) by (unfold zlength; lia).
  destruct (Z.eqb_spec (zlength nollZernike) 0) as [E|E]; [lia|].
  rewrite Z.div_small by lia.
  rewrite arange_cons by lia. cbn [sensorless_loop].
  rewrite Hnoll, Hcol.
  replace (0 * 0) with 0 by lia. replace ((0 + 1) * 0) with 0 by lia.
  rewrite !py_slice_empty. reflexivity.
Qed.

Lemma get_zernike_modes_sensorless_too_few_rows_witness :
  get_zernike_modes_sensorless (lib := sim) Python2
    [[[1%float]]] [[1%float; 2%float]] [1; 2] 2 = Raise UnboundLocalError.
Proof.
  apply (get_zernike_modes_sensorless_too_few_rows (lib := sim)
           [[[1%float]]] [[1%float; 2%float]] [1; 2] 2 1 0);
    reflexivity.
Defined.

(** ** reset *)

Lemma clamp01_rest n :
  map clamp01 (map (fun v => PrimFloat.add v 0.5) (repeat 0%float n)) =
  repeat 0.5%float n.
Proof. induction n as [|n IH]; cbn [repeat map]; [reflexivity|]. now rewrite IH. Qed.

(** X13.  [reset] hands the mirror one pattern, 0.5 for each actuator, which the
    clamping of [send] leaves as it is; nothing else changes. *)
Theorem reset_sends_rest_position (w : world)
    (Hn : 0 <= numActuators (dev w)) :
  reset w =
  (Ok tt,
   mkWorld (aoAlg w) (dev w)
           (repeat 0.5%float (Z.to_nat (numActuators (dev w))) :: mirror w)
           (frames w)).
Proof.
  unfold reset, bind, get. destruct (Z.ltb_spec (numActuators (dev w)) 0); [lia|].
  rewrite send_ok. unfold np_zeros. rewrite clamp01_rest. reflexivity.
Qed.

Lemma reset_sends_rest_position_witness :
  reset one_actuator_world =
  (Ok tt,
   mkWorld (aoAlg one_actuator_world) (dev one_actuator_world)
           [[0.5%float]] 0).
Proof.
  apply (reset_sends_rest_position one_actuator_world). cbn. lia.
Defined.

Lemma set_phase_all_or_nothing_witness :
  match set_phase (lib := sim) [1%float] None one_actuator_world with
  | (Raise _, w') => w' = one_actuator_world
  | (Ok flat, w') =>
      w' = mkWorld (aoAlg one_actuator_world) (dev one_actuator_world)
                   (flat :: mirror one_actuator_world)
                   (frames one_actuator_world) /\
      zlength flat = numActuators (dev one_actuator_world) /\
      Forall in_unit_range flat
  end.
Proof.
  apply (set_phase_all_or_nothing (lib := sim) [1%float] None
           one_actuator_world).
Defined.

(** ** make_fft_filter: the filter that is built *)

Section FilterWindow.
Context {lib : Numerics}.
Variable py : dialect.

(** X19.  When the first order point is found and the window of side
    [mask_di >= 2] around it lies inside the spectrum, [make_fft_filter]
    returns the array it stores, nothing else of the object changing.
    Before the [ifftshift] of line 181, applied when the spectrum had been
    shifted, that array has the rows of the spectrum, is 0 outside the
    window and inside it holds the outer product of the [sin ** 2] profile
    with itself. *)
Theorem make_fft_filter_window (image : array2) (region : option Z)
    (s : AdaptiveOpticsFunctions) (fftarray : carray) (mx my s0 s1 di : Z)
    (shift : bool)
    (Hpoint : find_first_order_point py image region
              = Ok (fftarray, (mx, my), shift))
    (Hshape : shape2 fftarray = (s0, s1))
    (Hdef : di = 5 * zlength image / 16)
    (Hdi : 2 <= di)
    (Hy : 0 <= my - di / 2 /\ my + (di + 1) / 2 <= s0)
    (Hx : 0 <= mx - di / 2 /\ mx + (di + 1) / 2 <= s1) :
  exists g,
    make_fft_filter py image region s =
      (Ok (if shift then ifftshift g else g),
       set_alg_fft_filter (Some (if shift then ifftshift g else g)) s) /\
    zlength g = s0 /\
    forall i j, 0 <= i < s0 -> 0 <= j < s1 ->
      at2 g i j =
      Some (if (my - di / 2 <=? i) && (i <? my + (di + 1) / 2)
               && (mx - di / 2 <=? j) && (j <? mx + (di + 1) / 2)
            then PrimFloat.mul (sin2_linspace di (i - (my - di / 2)))
                               (sin2_linspace di (j - (mx - di / 2)))
            else 0%float).
Proof.
  assert (Hsum : di / 2 + (di + 1) / 2 = di).
  { pose proof (Z.div_mod di 2). pose proof (Z.div_mod (di + 1) 2).
    pose proof (Z.mod_pos_bound di 2). pose proof (Z.mod_pos_bound (di + 1) 2).
    lia. }
  assert (Hhalf : 0 <= (di + 1) / 2) by (apply Z.div_pos; lia).
  assert (Hhalf' : 0 <= di / 2) by (apply Z.div_pos; lia).
  unfold make_fft_filter, bind, lift. rewrite Hpoint, Hshape.
  unfold modify, ret. cbv beta iota. rewrite <- Hdef.
  unfold paste2. rewrite shape2_np_zeros2 by lia.
  assert (Hl0 : slice_len s0 (my - di / 2) (my + (di + 1) / 2) = di)
    by (unfold slice_len; rewrite !slice_bound_in by lia; lia).
  assert (Hl1 : slice_len s1 (mx - di / 2) (mx + (di + 1) / 2) = di)
    by (unfold slice_len; rewrite !slice_bound_in by lia; lia).
  rewrite Hl0, Hl1. unfold broadcastable. rewrite Z.eqb_refl. cbn [orb andb].
  rewrite !slice_bound_in by lia.
  match goal with
  | |- context [Ok (if shift then ifftshift ?c else ?c)] => set (g := c)
  end.
  exists g. split; [reflexivity|]. split.
  - unfold g. rewrite zlength_mapi. unfold np_zeros2. rewrite zlength_repeat. lia.
  - intros i j Hi Hj. unfold at2, g.
    rewrite zth_mapi, zth_np_zeros2 by lia. cbn [option_map].
    destruct (Z.leb_spec (my - di / 2) i) as [Hi1|Hi1];
      destruct (Z.ltb_spec i (my + (di + 1) / 2)) as [Hi2|Hi2]; cbn [andb];
      try (now rewrite zth_np_zeros by lia).
    rewrite zth_mapi, zth_np_zeros by lia. cbn [option_map].
    destruct (Z.leb_spec (mx - di / 2) j) as [Hj1|Hj1];
      destruct (Z.ltb_spec j (mx + (di + 1) / 2)) as [Hj2|Hj2]; cbn [andb];
      try reflexivity.
    assert (Hlen : zlength (map (sin2_linspace di) (arange 0 di)) = di)
      by (rewrite zlength_map, arange_length; lia).
    rewrite bcast_nth_zth by (rewrite zlength_map, Hlen; lia).
    rewrite !zth_map, zth_arange by lia. cbn [option_map].
    rewrite bcast_nth_zth by (rewrite zlength_map, Hlen; lia).
    rewrite !zth_map, zth_arange by lia. cbn [option_map].
    rewrite !Z.add_0_l. reflexivity.
Qed.

End FilterWindow.

(** The first order point (128, 128) of a 176 by 176 spectrum, with a
    window of side 55. *)
Lemma make_fft_filter_window_witness :
  exists g,
    make_fft_filter (lib := sim) Python3 (peak_image 176 40 40) None alg_init =
      (Ok (ifftshift g), set_alg_fft_filter (Some (ifftshift g)) alg_init) /\
    zlength g = 176 /\
    forall i j, 0 <= i < 176 -> 0 <= j < 176 ->
      at2 g i j =
      Some (if (128 - 55 / 2 <=? i) && (i <? 128 + (55 + 1) / 2)
               && (128 - 55 / 2 <=? j) && (j <? 128 + (55 + 1) / 2)
            then PrimFloat.mul
                   (sin2_linspace (Numerics := sim) 55 (i - (128 - 55 / 2)))
                   (sin2_linspace (Numerics := sim) 55 (j - (128 - 55 / 2)))
            else 0%float).
Proof.
  eapply (make_fft_filter_window (lib := sim) Python3 (peak_image 176 40 40)
            None alg_init _ 128 128 176 176 55 true).
  - vm_compute. reflexivity.
  - vm_compute. reflexivity.
  - vm_compute. reflexivity.
  - lia.
  - vm_compute. split; discriminate.
  - vm_compute. split; discriminate.
Defined.

(** ** flatten_phase under Python 3 *)

Section FlattenDefault.
Context {lib : Numerics} {hw : Hardware}.

Lemma flatten_start_python3_default w st w1 :
  flatten_start Python3 None w = (Ok st, w1) -> False.
Proof.
  unfold flatten_start. intros H.
  apply bind_inv_ok in H. destruct H as [w0 [w0' [_ H]]].
  destruct (roi (dev w0)); [|discriminate].
  apply bind_inv_ok in H. destruct H as [u [wa [_ H]]].
  apply bind_inv_ok in H. destruct H as [wb [wc [_ H]]].
  destruct (dev_controlMatrix (dev wb)) as [cm|]; [|discriminate].
  destruct (shape2 cm) as [na nz].
  destruct (na =? numActuators (dev wb)); discriminate.
Qed.

(** X20.  Under Python 3 [flatten_phase] called without [z_modes_ignore]
    never returns a value.  On a device that is ready (region of interest,
    filter, and a control matrix with one row for each actuator) the
    comparison of line 462 raises [TypeError] before anything is sent or
    acquired: the process is as it was. *)
Theorem flatten_phase_python3_default (iterations : Z) (w : world) :
  (exists e w', flatten_phase Python3 iterations None w = (Raise e, w')) /\
  (forall r f cm,
     roi (dev w) = Some r -> dev_fft_filter (dev w) = Some f ->
     dev_controlMatrix (dev w) = Some cm ->
     fst (shape2 cm) = numActuators (dev w) ->
     flatten_phase Python3 iterations None w = (Raise TypeError, w)).
Proof.
  split.
  - destruct (flatten_phase Python3 iterations None w) as [[v|e] w'] eqn:E;
      [exfalso|now exists e, w'].
    unfold flatten_phase in E.
    apply bind_inv_ok in E. destruct E as [st [w1 [Hstart _]]].
    eapply flatten_start_python3_default, Hstart.
  - intros r f cm Hroi Hf Hcm Hrows.
    unfold flatten_phase, flatten_start, bind, get, ret.
    rewrite Hroi, Hf, Hcm. destruct (shape2 cm) as [na nz].
    cbn [fst] in Hrows. subst na. rewrite Z.eqb_refl. reflexivity.
Qed.

End FlattenDefault.

Lemma flatten_phase_python3_default_witness :
  flatten_phase (lib := sim) (hw := sim_camera) Python3 1 None
    one_actuator_world = (Raise TypeError, one_actuator_world).
Proof.
  apply (proj2 (flatten_phase_python3_default (lib := sim) (hw := sim_camera)
                  1 one_actuator_world)
           (1, 1, 1) [[1%float]] [[1%float]]); reflexivity.
Defined.

(** ** The checks of flatten_phase on the control matrix *)

Section FlattenChecks.
Context {lib : Numerics} {hw : Hardware}.
Variable py : dialect.

(** X21.  On a device with a region of interest and a filter,
    [flatten_phase] tests the control matrix before it sends or acquires
    anything.  With no control matrix the unpacking of line 452 raises
    [ValueError]; with a matrix whose number of rows is not the number of
    actuators the exception of line 456 is raised.  In both cases the
    process is as it was. *)
Theorem flatten_phase_checks_control_matrix (iterations : Z)
    (ign : option vec) (w : world) (r : Z * Z * Z) (f : array2)
    (Hroi : roi (dev w) = Some r)
    (Hfilter : dev_fft_filter (dev w) = Some f) :
  (dev_controlMatrix (dev w) = None ->
   flatten_phase py iterations ign w = (Raise ValueError, w)) /\
  (forall cm, dev_controlMatrix (dev w) = Some cm ->
     fst (shape2 cm) <> numActuators (dev w) ->
     flatten_phase py iterations ign w
     = (Raise (Exception dimension_message), w)).
Proof.
  split.
  - intros Hcm. unfold flatten_phase, flatten_start, bind, get, ret.
    now rewrite Hroi, Hfilter, Hcm.
  - intros cm Hcm Hrows. unfold flatten_phase, flatten_start, bind, get, ret.
    rewrite Hroi, Hfilter, Hcm. destruct (shape2 cm) as [na nz].
    cbn [fst] in Hrows. destruct (Z.eqb_spec na (numActuators (dev w))); [lia|].
    reflexivity.
Qed.

End FlattenChecks.

(** The device with one actuator given a control matrix of two rows. *)
Lemma flatten_phase_checks_control_matrix_witness :
  flatten_phase (lib := sim) (hw := sim_camera) Python2 1 None
    (set_dev (set_dev_controlMatrix (Some [[1%float]; [1%float]]))
             one_actuator_world)
  = (Raise (Exception dimension_message),
     set_dev (set_dev_controlMatrix (Some [[1%float]; [1%float]]))
             one_actuator_world).
Proof.
  apply (proj2 (flatten_phase_checks_control_matrix (lib := sim)
                  (hw := sim_camera) Python2 1 None
                  (set_dev (set_dev_controlMatrix (Some [[1%float]; [1%float]]))
                           one_actuator_world)
                  (1, 1, 1) [[1%float]] eq_refl eq_refl)
           [[1%float]; [1%float]]).
  - reflexivity.
  - cbn. lia.
Defined.

(** ** Setting and reading back *)

(** X22.  [set_controlMatrix] gives the matrix to the device and to [aoAlg]
    alike, and [get_controlMatrix] then returns it.  After a [set_roi] with
    a radius that is not negative [get_roi] returns the triple given, the
    control matrices are still there, and [get_fourierfilter] raises the
    exception of line 171, the filter having been erased. *)
Theorem set_then_get (w : world) (cm : array2) (y0 x0 radius : Z)
    (Hr : 0 <= radius) :
  exists w1 w2,
    set_controlMatrix cm w = (Ok tt, w1) /\
    get_controlMatrix w1 = (Ok cm, w1) /\
    controlMatrix (aoAlg w1) = Some cm /\
    set_roi y0 x0 radius w1 = (Ok tt, w2) /\
    get_roi w2 = (Ok (y0, x0, radius), w2) /\
    get_controlMatrix w2 = (Ok cm, w2) /\
    controlMatrix (aoAlg w2) = Some cm /\
    get_fourierfilter w2 = (Raise (Exception filter_message), w2).
Proof.
  unfold set_controlMatrix, set_roi, get_controlMatrix, get_roi,
    get_fourierfilter, bind, get, modify, ret, raise, call_aoAlg, make_mask.
  eexists. eexists. cbn. repeat split.
Qed.

Lemma set_then_get_witness :
  exists w1 w2,
    set_controlMatrix [[2%float]] one_actuator_world = (Ok tt, w1) /\
    get_controlMatrix w1 = (Ok [[2%float]], w1) /\
    controlMatrix (aoAlg w1) = Some [[2%float]] /\
    set_roi 3 3 2 w1 = (Ok tt, w2) /\
    get_roi w2 = (Ok (3, 3, 2), w2) /\
    get_controlMatrix w2 = (Ok [[2%float]], w2) /\
    controlMatrix (aoAlg w2) = Some [[2%float]] /\
    get_fourierfilter w2 = (Raise (Exception filter_message), w2).
Proof.
  apply (set_then_get one_actuator_world [[2%float]] 3 3 2). lia.
Defined.
